(** * The realtime audio session manager of AURA (src/hooks/useLiveSession.ts)

    A shallow embedding of the [useLiveSession] hook: its React state, its
    refs, and the browser and remote objects its callbacks act on.  Every
    callback of the hook is a function on [State].  [connect] is cut in two
    at its [await] of getUserMedia, so that calls can overlap; the awaits
    inside [onopen] (resume) and [onmessage] (decode) are taken to settle
    before the next callback runs.

    Conventions.
    - A JS [number] holding a time in seconds is a rational ([Q]); [+] and
      [Math.max] are the exact operations.
    - A JS string is a [string] whose characters are code units below 256.
    - AudioContexts, nodes, media streams, sessions and buffer sources are
      identified by the number they were allocated with ([fresh]).
    - [decodeAudioData] and [createBlob] live in ../utils/audioUtils, which
      is not part of the sources at hand: the outcome of a decode is read
      from the environment of the callback; a blob is the symbolic
      [createBlob] of its samples.
    - A closure keeps the value of [isMuted] of the render that made it: a
      session and a capture processor record the [isMuted] of the [connect]
      call they come from.
    - [ai.live.connect] returns a promise.  It is pending until it fulfils
      (the event [Fulfil]); a callback handed to its [then] runs at once
      when the promise has fulfilled; otherwise it waits in [reactions]
      until the promise fulfils.  A promise that rejects is not part of
      the model. *)

From Stdlib Require Import List String Ascii Bool Arith ZArith QArith Qminmax Lia Lqa.
Import ListNotations.
Open Scope string_scope.

(** ** types.ts *)

Inductive Role := user | model.

Record ChatMessage := {
  role : Role;
  text : string;
  timestamp : Z            (* a Date, in milliseconds *)
}.

Inductive AppMode := CONVERSATION | TEST_SETUP | TEST_ACTIVE.

Inductive ConnectionState := Disconnected | Connecting | Connected | Error.

Definition AppMode_eqb (a b : AppMode) : bool :=
  match a, b with
  | CONVERSATION, CONVERSATION | TEST_SETUP, TEST_SETUP
  | TEST_ACTIVE, TEST_ACTIVE => true
  | _, _ => false
  end.

(** ** JavaScript strings: truthiness and [String.prototype.trim] *)

Module Js.

(** The white space and line terminators of ECMAScript among the code
    units below 256: TAB, LF, VT, FF, CR, SP and NBSP. *)
Definition isWhiteSpace (c : ascii) : bool :=
  match nat_of_ascii c with
  | 9 | 10 | 11 | 12 | 13 | 32 | 160 => true
  | _ => false
  end%nat.

Fixpoint trimStart (s : string) : string :=
  match s with
  | EmptyString => EmptyString
  | String c r => if isWhiteSpace c then trimStart r else s
  end.

Fixpoint trimEnd (s : string) : string :=
  match s with
  | EmptyString => EmptyString
  | String c r =>
      match trimEnd r with
      | EmptyString => if isWhiteSpace c then EmptyString else String c EmptyString
      | r' => String c r'
      end
  end.

Definition trim (s : string) : string := trimEnd (trimStart s).

(** A string in a condition: only the empty string is falsy. *)
Definition truthy (s : string) : bool :=
  match s with EmptyString => false | String _ _ => true end.

(** An optional string appended to a string: [undefined] reads
    [undefined]. *)
Definition toString (o : option string) : string :=
  match o with Some t => t | None => "undefined" end.

(** A ref or an optional value in a condition. *)
Definition present {A} (o : option A) : bool :=
  match o with Some _ => true | None => false end.

End Js.

(** ** Numbers shown by the volume meter: a rational, or the square root of
    one (the root is kept symbolic). *)

Inductive Num := num (q : Q) | Math_sqrt (q : Q).

(** ** The remote service's message, as the hook consumes it *)

(** A Transcription; its [text] is optional in the SDK's type. *)
Record Transcription := { transcription_text : option string }.

Record LiveServerMessage := {
  outputTranscription : option Transcription;  (* serverContent?.outputTranscription *)
  inputTranscription : option Transcription;   (* serverContent?.inputTranscription *)
  turnComplete : bool;                  (* serverContent?.turnComplete *)
  inlineData : option string;           (* serverContent?.modelTurn?.parts?.[0]?.inlineData?.data *)
  interrupted : bool                    (* serverContent?.interrupted *)
}.

(** An AudioBuffer at the 24 kHz the hook decodes at; its duration is its
    length divided by the sample rate. *)
Record AudioBuffer := { frames : N }.

Definition duration (b : AudioBuffer) : Q := inject_Z (Z.of_N (frames b)) / 24000.

(** What one run of [onmessage] reads from its surroundings. *)
Record Env := {
  currentTime : Q;                              (* ctx.currentTime *)
  Date_now : nat -> Z;                          (* the k-th [new Date()] of this run *)
  decodeAudioData : string -> option AudioBuffer  (* [None]: the decode throws *)
}.

(** ** Objects outside the hook *)

Inductive ContextState := Suspended | Running | Closed.

Inductive Blob := createBlob (inputData : list Q).

(** The callbacks the hook hands to [then] on a session promise. *)
Inductive Reaction :=
| then_close                              (* session => session.close(), lines 83-84 *)
| then_sendRealtimeInput (media : Blob).  (* session => session.sendRealtimeInput({ media }),
                                             lines 154-156 *)

(** A remote session, the promise [ai.live.connect] returned for it, and
    what its callbacks closed over. *)
Record Session := {
  sid : nat;
  fulfilled : bool;          (* the promise has fulfilled *)
  reactions : list Reaction; (* the callbacks that wait for that, oldest first *)
  closed : bool;             (* [session.close()] was called *)
  s_isMuted : bool;          (* [isMuted] of the [connect] that opened it *)
  systemInstruction : string
}.

(** A ScriptProcessorNode with its [onaudioprocess] closure. *)
Record Processor := {
  pid : nat;
  p_session : nat;           (* [sessionPromise] of the closure *)
  p_isMuted : bool;          (* [isMuted] of the closure *)
  p_connected : bool
}.

(** A [connect] waiting for [getUserMedia]. *)
Record ConnectCall := {
  c_isMuted : bool;
  c_systemInstructionOverride : option string
}.

Record Scheduled := {
  sch_source : nat;
  sch_when : Q;              (* the argument of [source.start] *)
  sch_buffer : AudioBuffer
}.

(** ** The state *)

Record ReactState := {
  connectionState : ConnectionState;
  error : option string;
  isMuted : bool;
  volumeLevel : Num
}.

(** Audio Contexts & Nodes *)
Record AudioRefs := {
  inputAudioContextRef : option nat;
  outputAudioContextRef : option nat;
  inputNodeRef : option nat;
  outputNodeRef : option nat;
  scriptProcessorRef : option nat;
  streamRef : option nat;
  sourceRef : option nat
}.

(** Playback Queue *)
Record PlaybackRefs := {
  nextStartTimeRef : Q;
  activeSourcesRef : list nat      (* a Set, in insertion order *)
}.

(** Session *)
Record SessionRefs := {
  sessionPromiseRef : option nat;
  currentInputTranscriptionRef : string;
  currentOutputTranscriptionRef : string
}.

Record Browser := {
  fresh : nat;
  contexts : list (nat * ContextState);
  liveStreams : list nat;          (* media streams whose tracks run *)
  sessions : list Session;
  processors : list Processor;
  pendingConnects : list ConnectCall
}.

(** What the hook did to the outside, oldest first. *)
Record Log := {
  transcript : list ChatMessage;   (* calls of onTranscriptionUpdate *)
  decodeCalls : list string;       (* calls of decodeAudioData *)
  started : list Scheduled;        (* calls of source.start *)
  stopped : list nat;              (* calls of source.stop *)
  sent : list (nat * Blob);        (* calls of session.sendRealtimeInput *)
  console : list string
}.

Record State := {
  react : ReactState;
  appModeRef : AppMode;
  audio : AudioRefs;
  playback : PlaybackRefs;
  session : SessionRefs;
  browser : Browser;
  log : Log
}.

(** *** Assignments *)

Definition on_react (f : ReactState -> ReactState) (s : State) : State :=
  {| react := f (react s); appModeRef := appModeRef s; audio := audio s;
     playback := playback s; session := session s; browser := browser s;
     log := log s |}.

Definition on_audio (f : AudioRefs -> AudioRefs) (s : State) : State :=
  {| react := react s; appModeRef := appModeRef s; audio := f (audio s);
     playback := playback s; session := session s; browser := browser s;
     log := log s |}.

Definition on_playback (f : PlaybackRefs -> PlaybackRefs) (s : State) : State :=
  {| react := react s; appModeRef := appModeRef s; audio := audio s;
     playback := f (playback s); session := session s; browser := browser s;
     log := log s |}.

Definition on_session (f : SessionRefs -> SessionRefs) (s : State) : State :=
  {| react := react s; appModeRef := appModeRef s; audio := audio s;
     playback := playback s; session := f (session s); browser := browser s;
     log := log s |}.

Definition on_browser (f : Browser -> Browser) (s : State) : State :=
  {| react := react s; appModeRef := appModeRef s; audio := audio s;
     playback := playback s; session := session s; browser := f (browser s);
     log := log s |}.

Definition on_log (f : Log -> Log) (s : State) : State :=
  {| react := react s; appModeRef := appModeRef s; audio := audio s;
     playback := playback s; session := session s; browser := browser s;
     log := f (log s) |}.

Definition set_appModeRef (m : AppMode) (s : State) : State :=
  {| react := react s; appModeRef := m; audio := audio s;
     playback := playback s; session := session s; browser := browser s;
     log := log s |}.

Definition setConnectionState (c : ConnectionState) : State -> State :=
  on_react (fun r => {| connectionState := c; error := error r;
                        isMuted := isMuted r; volumeLevel := volumeLevel r |}).

Definition setError (e : option string) : State -> State :=
  on_react (fun r => {| connectionState := connectionState r; error := e;
                        isMuted := isMuted r; volumeLevel := volumeLevel r |}).

Definition setIsMuted (f : bool -> bool) : State -> State :=
  on_react (fun r => {| connectionState := connectionState r; error := error r;
                        isMuted := f (isMuted r); volumeLevel := volumeLevel r |}).

Definition setVolumeLevel (v : Num) : State -> State :=
  on_react (fun r => {| connectionState := connectionState r; error := error r;
                        isMuted := isMuted r; volumeLevel := v |}).

Definition set_nextStartTime (t : Q) : State -> State :=
  on_playback (fun p => {| nextStartTimeRef := t;
                           activeSourcesRef := activeSourcesRef p |}).

Definition set_activeSources (l : list nat) : State -> State :=
  on_playback (fun p => {| nextStartTimeRef := nextStartTimeRef p;
                           activeSourcesRef := l |}).

Definition set_sessionPromise (o : option nat) : State -> State :=
  on_session (fun r => {| sessionPromiseRef := o;
      currentInputTranscriptionRef := currentInputTranscriptionRef r;
      currentOutputTranscriptionRef := currentOutputTranscriptionRef r |}).

Definition set_currentInput (t : string) : State -> State :=
  on_session (fun r => {| sessionPromiseRef := sessionPromiseRef r;
      currentInputTranscriptionRef := t;
      currentOutputTranscriptionRef := currentOutputTranscriptionRef r |}).

Definition set_currentOutput (t : string) : State -> State :=
  on_session (fun r => {| sessionPromiseRef := sessionPromiseRef r;
      currentInputTranscriptionRef := currentInputTranscriptionRef r;
      currentOutputTranscriptionRef := t |}).

Definition set_inputAudioContext (o : option nat) : State -> State :=
  on_audio (fun a => {| inputAudioContextRef := o;
      outputAudioContextRef := outputAudioContextRef a;
      inputNodeRef := inputNodeRef a; outputNodeRef := outputNodeRef a;
      scriptProcessorRef := scriptProcessorRef a; streamRef := streamRef a;
      sourceRef := sourceRef a |}).

Definition set_outputAudioContext (o : option nat) : State -> State :=
  on_audio (fun a => {| inputAudioContextRef := inputAudioContextRef a;
      outputAudioContextRef := o;
      inputNodeRef := inputNodeRef a; outputNodeRef := outputNodeRef a;
      scriptProcessorRef := scriptProcessorRef a; streamRef := streamRef a;
      sourceRef := sourceRef a |}).

Definition set_inputNode (o : option nat) : State -> State :=
  on_audio (fun a => {| inputAudioContextRef := inputAudioContextRef a;
      outputAudioContextRef := outputAudioContextRef a;
      inputNodeRef := o; outputNodeRef := outputNodeRef a;
      scriptProcessorRef := scriptProcessorRef a; streamRef := streamRef a;
      sourceRef := sourceRef a |}).

Definition set_outputNode (o : option nat) : State -> State :=
  on_audio (fun a => {| inputAudioContextRef := inputAudioContextRef a;
      outputAudioContextRef := outputAudioContextRef a;
      inputNodeRef := inputNodeRef a; outputNodeRef := o;
      scriptProcessorRef := scriptProcessorRef a; streamRef := streamRef a;
      sourceRef := sourceRef a |}).

Definition set_scriptProcessor (o : option nat) : State -> State :=
  on_audio (fun a => {| inputAudioContextRef := inputAudioContextRef a;
      outputAudioContextRef := outputAudioContextRef a;
      inputNodeRef := inputNodeRef a; outputNodeRef := outputNodeRef a;
      scriptProcessorRef := o; streamRef := streamRef a;
      sourceRef := sourceRef a |}).

Definition set_stream (o : option nat) : State -> State :=
  on_audio (fun a => {| inputAudioContextRef := inputAudioContextRef a;
      outputAudioContextRef := outputAudioContextRef a;
      inputNodeRef := inputNodeRef a; outputNodeRef := outputNodeRef a;
      scriptProcessorRef := scriptProcessorRef a; streamRef := o;
      sourceRef := sourceRef a |}).

Definition set_source (o : option nat) : State -> State :=
  on_audio (fun a => {| inputAudioContextRef := inputAudioContextRef a;
      outputAudioContextRef := outputAudioContextRef a;
      inputNodeRef := inputNodeRef a; outputNodeRef := outputNodeRef a;
      scriptProcessorRef := scriptProcessorRef a; streamRef := streamRef a;
      sourceRef := o |}).

(** *** Effects on the outside *)

Definition onTranscriptionUpdate (m : ChatMessage) : State -> State :=
  on_log (fun l => {| transcript := transcript l ++ [m];
      decodeCalls := decodeCalls l; started := started l;
      stopped := stopped l; sent := sent l; console := console l |}).

Definition log_decode (data : string) : State -> State :=
  on_log (fun l => {| transcript := transcript l;
      decodeCalls := decodeCalls l ++ [data]; started := started l;
      stopped := stopped l; sent := sent l; console := console l |}).

Definition source_start (src : nat) (t : Q) (b : AudioBuffer) : State -> State :=
  on_log (fun l => {| transcript := transcript l;
      decodeCalls := decodeCalls l;
      started := started l ++ [{| sch_source := src; sch_when := t; sch_buffer := b |}];
      stopped := stopped l; sent := sent l; console := console l |}).

Definition source_stop (src : nat) : State -> State :=
  on_log (fun l => {| transcript := transcript l;
      decodeCalls := decodeCalls l; started := started l;
      stopped := stopped l ++ [src]; sent := sent l; console := console l |}).

Definition sendRealtimeInput (sess : nat) (b : Blob) : State -> State :=
  on_log (fun l => {| transcript := transcript l;
      decodeCalls := decodeCalls l; started := started l;
      stopped := stopped l; sent := sent l ++ [(sess, b)]; console := console l |}).

Definition console_log (msg : string) : State -> State :=
  on_log (fun l => {| transcript := transcript l;
      decodeCalls := decodeCalls l; started := started l;
      stopped := stopped l; sent := sent l; console := console l ++ [msg] |}).

(** Allocation of a new object: its number, and the counter moved on. *)
Definition alloc (s : State) : nat * State :=
  (fresh (browser s),
   on_browser (fun b => {| fresh := S (fresh b); contexts := contexts b;
       liveStreams := liveStreams b; sessions := sessions b;
       processors := processors b; pendingConnects := pendingConnects b |}) s).

Definition set_contexts (c : list (nat * ContextState)) : State -> State :=
  on_browser (fun b => {| fresh := fresh b; contexts := c;
       liveStreams := liveStreams b; sessions := sessions b;
       processors := processors b; pendingConnects := pendingConnects b |}).

Definition set_liveStreams (l : list nat) : State -> State :=
  on_browser (fun b => {| fresh := fresh b; contexts := contexts b;
       liveStreams := l; sessions := sessions b;
       processors := processors b; pendingConnects := pendingConnects b |}).

Definition set_sessions (l : list Session) : State -> State :=
  on_browser (fun b => {| fresh := fresh b; contexts := contexts b;
       liveStreams := liveStreams b; sessions := l;
       processors := processors b; pendingConnects := pendingConnects b |}).

Definition set_processors (l : list Processor) : State -> State :=
  on_browser (fun b => {| fresh := fresh b; contexts := contexts b;
       liveStreams := liveStreams b; sessions := sessions b;
       processors := l; pendingConnects := pendingConnects b |}).

Definition set_pendingConnects (l : list ConnectCall) : State -> State :=
  on_browser (fun b => {| fresh := fresh b; contexts := contexts b;
       liveStreams := liveStreams b; sessions := sessions b;
       processors := processors b; pendingConnects := l |}).

(** *** Sets of sources, contexts, sessions *)

Fixpoint Set_add (x : nat) (l : list nat) : list nat :=
  match l with
  | [] => [x]
  | y :: r => if Nat.eqb x y then l else y :: Set_add x r
  end.

Definition Set_delete (x : nat) (l : list nat) : list nat :=
  filter (fun y => negb (Nat.eqb x y)) l.

Definition context_state (c : nat) (s : State) : option ContextState :=
  option_map snd (find (fun e => Nat.eqb (fst e) c) (contexts (browser s))).

Definition mark_context (c : nat) (st : ContextState)
    (l : list (nat * ContextState)) : list (nat * ContextState) :=
  map (fun e => if Nat.eqb (fst e) c then (c, st) else e) l.

Definition set_context_state (c : nat) (st : ContextState) (s : State) : State :=
  set_contexts (mark_context c st (contexts (browser s))) s.

Definition new_AudioContext (autoplayBlocked : bool) (s : State) : nat * State :=
  let (c, s) := alloc s in
  (c, set_contexts
        (contexts (browser s)
           ++ [(c, if autoplayBlocked then Suspended else Running)]) s).

(** *** The session promise *)

Definition update_session (k : nat) (f : Session -> Session) (s : State) : State :=
  set_sessions
    (map (fun e => if Nat.eqb (sid e) k then f e else e) (sessions (browser s))) s.

(** [session.close()] *)
Definition session_close (e : Session) : Session :=
  {| sid := sid e; fulfilled := fulfilled e; reactions := reactions e;
     closed := true; s_isMuted := s_isMuted e;
     systemInstruction := systemInstruction e |}.

(** The callback is kept until the promise fulfils. *)
Definition session_later (r : Reaction) (e : Session) : Session :=
  {| sid := sid e; fulfilled := fulfilled e; reactions := reactions e ++ [r];
     closed := closed e; s_isMuted := s_isMuted e;
     systemInstruction := systemInstruction e |}.

(** What [then] does to the session: the callback runs, or it is kept. *)
Definition session_then (r : Reaction) (e : Session) : Session :=
  if fulfilled e
  then match r with
       | then_close => session_close e
       | then_sendRealtimeInput _ => e
       end
  else session_later r e.

(** The promise of session [k] has fulfilled. *)
Definition promise_fulfilled (k : nat) (s : State) : bool :=
  existsb (fun e => Nat.eqb (sid e) k && fulfilled e) (sessions (browser s)).

(** [promise.then(callback)] on the promise of session [k].  When the
    promise has fulfilled, the callback runs with the session in the
    microtask that follows, before any other callback of the hook: here,
    at once.  Otherwise it waits until the promise fulfils. *)
Definition promise_then (k : nat) (r : Reaction) (s : State) : State :=
  let s' := update_session k (session_then r) s in
  match r with
  | then_close => s'
  | then_sendRealtimeInput media =>
      if promise_fulfilled k s then sendRealtimeInput k media s' else s'
  end.

Definition is_close (r : Reaction) : bool :=
  match r with then_close => true | then_sendRealtimeInput _ => false end.

Definition media_of (r : Reaction) : list Blob :=
  match r with then_close => [] | then_sendRealtimeInput media => [media] end.

(** The session once its promise has fulfilled and the callbacks that
    waited have run. *)
Definition session_fulfilled (e : Session) : Session :=
  if fulfilled e then e
  else {| sid := sid e; fulfilled := true; reactions := [];
          closed := closed e || existsb is_close (reactions e);
          s_isMuted := s_isMuted e;
          systemInstruction := systemInstruction e |}.

(** What the callbacks that wait on the promise of session [k] send when
    they run. *)
Definition outbox (k : nat) (l : list Session) : list Blob :=
  flat_map (fun e => if Nat.eqb (sid e) k && negb (fulfilled e)
                     then flat_map media_of (reactions e) else []) l.

(** The promise of session [k] fulfils: the callbacks that waited on it
    run, oldest first. *)
Definition session_fulfils (k : nat) (s : State) : State :=
  fold_left (fun s media => sendRealtimeInput k media s)
    (outbox k (sessions (browser s)))
    (update_session k session_fulfilled s).

Definition processor_disconnect (p : nat) (s : State) : State :=
  set_processors
    (map (fun e => if Nat.eqb (pid e) p
                   then {| pid := pid e; p_session := p_session e;
                           p_isMuted := p_isMuted e; p_connected := false |}
                   else e) (processors (browser s))) s.

(** [activeSourcesRef.current.forEach(s => s.stop())], one source after
    the other. *)
Definition forEach_stop (s : State) : State :=
  fold_left (fun s src => source_stop src s) (activeSourcesRef (playback s)) s.

(** The same in one step ([forEach_stop_eq]): the sources of the set are
    stopped in the order of the set. *)
Definition stop_all (s : State) : State :=
  on_log (fun l => {| transcript := transcript l; decodeCalls := decodeCalls l;
                      started := started l;
                      stopped := stopped l ++ activeSourcesRef (playback s);
                      sent := sent l; console := console l |}) s.

(** ** The hook *)

Definition DEFAULT_SYSTEM_INSTRUCTION : string :=
"You are AURA, a compassionate, patient, and friendly companion for an elderly person who may have dementia. 
Engage in gentle conversation, reminisce, and answer questions. Be empathetic and never frustrated.
Always speak clearly, slowly, and reassuringly.
IMPORTANT: You must strictly speak and listen in English only. If the user speaks another language, kindly ask them to speak in English.".

(** The state of a freshly mounted hook. *)
Definition initial (appMode : AppMode) : State :=
  {| react := {| connectionState := Disconnected; error := None;
                 isMuted := false; volumeLevel := num 0 |};
     appModeRef := appMode;
     audio := {| inputAudioContextRef := None; outputAudioContextRef := None;
                 inputNodeRef := None; outputNodeRef := None;
                 scriptProcessorRef := None; streamRef := None; sourceRef := None |};
     playback := {| nextStartTimeRef := 0; activeSourcesRef := [] |};
     session := {| sessionPromiseRef := None;
                   currentInputTranscriptionRef := "";
                   currentOutputTranscriptionRef := "" |};
     browser := {| fresh := 0; contexts := []; liveStreams := []; sessions := [];
                   processors := []; pendingConnects := [] |};
     log := {| transcript := []; decodeCalls := []; started := []; stopped := [];
               sent := []; console := [] |} |}.

(** *** cleanup (lines 49-88) *)

Definition cleanup (s : State) : State :=
  (* Stop all active playback sources *)
  let s := stop_all s in
  let s := set_activeSources [] s in
  (* Close microphone stream *)
  let s := match streamRef (audio s) with
           | Some st => set_stream None
                          (set_liveStreams (Set_delete st (liveStreams (browser s))) s)
           | None => s
           end in
  (* Disconnect audio nodes *)
  let s := match sourceRef (audio s) with
           | Some _ => set_source None s
           | None => s
           end in
  let s := match scriptProcessorRef (audio s) with
           | Some p => set_scriptProcessor None (processor_disconnect p s)
           | None => s
           end in
  (* Close AudioContexts *)
  let s := match inputAudioContextRef (audio s) with
           | Some c => set_inputAudioContext None (set_context_state c Closed s)
           | None => s
           end in
  let s := match outputAudioContextRef (audio s) with
           | Some c => set_outputAudioContext None (set_context_state c Closed s)
           | None => s
           end in
  (* Close Session *)
  let s := match sessionPromiseRef (session s) with
           | Some k => promise_then k then_close s
           | None => s
           end in
  let s := set_sessionPromise None s in
  let s := setConnectionState Disconnected s in
  setVolumeLevel (num 0) s.

(** *** connect (lines 90-265), cut at [await getUserMedia] *)

Definition has_key (API_KEY : option string) : bool :=
  match API_KEY with Some k => Js.truthy k | None => false end.

(** Lines 102-118: the new session is set up, as far as the request for the
    microphone.  [autoplayBlocked] tells whether the browser creates audio
    contexts suspended. *)
Definition connect_setup (systemInstructionOverride : option string)
    (autoplayBlocked : bool) (s : State) : State :=
  let s := setConnectionState Connecting s in
  let s := setError None s in
  (* Initialize Audio Contexts *)
  let (ic, s) := new_AudioContext autoplayBlocked s in
  let s := set_inputAudioContext (Some ic) s in
  let (oc, s) := new_AudioContext autoplayBlocked s in
  let s := set_outputAudioContext (Some oc) s in
  (* FIX: Reset time tracker for new context *)
  let s := set_nextStartTime 0 s in
  let (ig, s) := alloc s in
  let s := set_inputNode (Some ig) s in
  let (og, s) := alloc s in
  let s := set_outputNode (Some og) s in
  (* Initialize Microphone: await getUserMedia *)
  set_pendingConnects
    (pendingConnects (browser s)
       ++ [{| c_isMuted := isMuted (react s);
              c_systemInstructionOverride := systemInstructionOverride |}]) s.

(** Lines 91-118: [connect], up to the request for the microphone. *)
Definition connect (API_KEY : option string)
    (systemInstructionOverride : option string) (autoplayBlocked : bool)
    (s : State) : State :=
  if negb (has_key API_KEY) then setError (Some "API Key is missing.") s
  else
    (* If already connected, cleanup first (reconnect logic) *)
    let s := if Js.present (sessionPromiseRef (session s)) then cleanup s else s in
    connect_setup systemInstructionOverride autoplayBlocked s.

Inductive MediaResult :=
| Granted
| Rejected (message : option string).   (* [Some]: an Error with this message *)

Definition error_text (message : option string) : string :=
  match message with
  | Some m => m
  | None => "Failed to connect"
  end.

Definition instruction_of (o : option string) : string :=
  match o with
  | Some i => if Js.truthy i then i else DEFAULT_SYSTEM_INSTRUCTION
  | None => DEFAULT_SYSTEM_INSTRUCTION
  end.

(** Lines 119-264: the oldest waiting [connect] goes on once
    [getUserMedia] has settled. *)
Definition connect_resume (r : MediaResult) (s : State) : State :=
  match pendingConnects (browser s) with
  | [] => s
  | c :: rest =>
      let s := set_pendingConnects rest s in
      match r with
      | Granted =>
          let (stream, s) := alloc s in
          let s := set_liveStreams (liveStreams (browser s) ++ [stream]) s in
          let s := set_stream (Some stream) s in
          let (k, s) := alloc s in
          let s := set_sessions
                     (sessions (browser s)
                        ++ [{| sid := k; fulfilled := false; reactions := [];
                               closed := false; s_isMuted := c_isMuted c;
                               systemInstruction :=
                                 instruction_of (c_systemInstructionOverride c) |}]) s in
          set_sessionPromise (Some k) s
      | Rejected message =>
          let s := console_log (error_text message) s in
          let s := setConnectionState Error s in
          setError (Some (error_text message)) s
      end
  end.

(** *** The session's callbacks *)

(** onopen (lines 126-162) of session [k]. *)
Definition onopen (k : nat) (s : State) : State :=
  match find (fun e => Nat.eqb (sid e) k) (sessions (browser s)) with
  | None => s
  | Some sess =>
      let s := console_log "Session opened" s in
      let s := setConnectionState Connected s in
      (* FIX: Resume context if suspended (browser autoplay policy) *)
      let s := match outputAudioContextRef (audio s) with
               | Some c => match context_state c s with
                           | Some Suspended => set_context_state c Running s
                           | _ => s
                           end
               | None => s
               end in
      if negb (Js.present (inputAudioContextRef (audio s)))
         || negb (Js.present (streamRef (audio s)))
      then s
      else
        let (source, s) := alloc s in
        let s := set_source (Some source) s in
        let (processor, s) := alloc s in
        let s := set_scriptProcessor (Some processor) s in
        set_processors
          (processors (browser s)
             ++ [{| pid := processor; p_session := k;
                    p_isMuted := s_isMuted sess; p_connected := true |}]) s
  end.

(** processor.onaudioprocess (lines 144-158) of processor [p]. *)
Definition onaudioprocess (p : nat) (inputData : list Q) (s : State) : State :=
  match find (fun e => Nat.eqb (pid e) p) (processors (browser s)) with
  | None => s
  | Some pr =>
      if p_isMuted pr then s
      else
        (* Simple volume meter *)
        let sum := fold_left (fun sum x => sum + x * x) inputData 0 in
        let s := setVolumeLevel
                   (Math_sqrt (sum / inject_Z (Z.of_nat (List.length inputData)))) s in
        let pcmBlob := createBlob inputData in
        promise_then (p_session pr) (then_sendRealtimeInput pcmBlob) s
  end.

(** onmessage, lines 164-170: Handle Transcriptions *)
Definition handle_transcriptions (message : LiveServerMessage) (s : State) : State :=
  let s := match outputTranscription message with
           | Some t => set_currentOutput
                         (currentOutputTranscriptionRef (session s)
                            ++ Js.toString (transcription_text t)) s
           | None => s
           end in
  match inputTranscription message with
  | Some t => set_currentInput
                (currentInputTranscriptionRef (session s)
                   ++ Js.toString (transcription_text t)) s
  | None => s
  end.

(** onmessage, lines 172-190: Send completed turns to UI *)
Definition handle_turnComplete (env : Env) (message : LiveServerMessage)
    (s : State) : State :=
  if turnComplete message then
    let userText := currentInputTranscriptionRef (session s) in
    let modelText := currentOutputTranscriptionRef (session s) in
    let emitUser := Js.truthy (Js.trim userText) in
    let s := if emitUser
             then onTranscriptionUpdate
                    {| role := user; text := userText; timestamp := Date_now env 0 |} s
             else s in
    let s := if Js.truthy (Js.trim modelText)
             then onTranscriptionUpdate
                    {| role := model; text := modelText;
                       timestamp := Date_now env (if emitUser then 1 else 0) |} s
             else s in
    let s := set_currentInput "" s in
    set_currentOutput "" s
  else s.

(** onmessage, lines 198-226: Handle Audio Output *)
Definition handle_audio (env : Env) (message : LiveServerMessage) (s : State) : State :=
  match inlineData message with
  | Some base64Audio =>
      if Js.truthy base64Audio
         && Js.present (outputAudioContextRef (audio s))
         && Js.present (outputNodeRef (audio s))
      then
        let s := set_nextStartTime
                   (Qmax (nextStartTimeRef (playback s)) (currentTime env)) s in
        let s := log_decode base64Audio s in
        match decodeAudioData env base64Audio with
        | Some audioBuffer =>
            let (source, s) := alloc s in
            let s := source_start source (nextStartTimeRef (playback s)) audioBuffer s in
            let s := set_nextStartTime
                       (nextStartTimeRef (playback s) + duration audioBuffer) s in
            set_activeSources (Set_add source (activeSourcesRef (playback s))) s
        | None => console_log "Error decoding audio" s
        end
      else s
  | None => s
  end.

(** onmessage, lines 228-235: Handle Interruption *)
Definition handle_interruption (message : LiveServerMessage) (s : State) : State :=
  if interrupted message then
    let s := console_log "Model interrupted" s in
    let s := stop_all s in
    let s := set_activeSources [] s in
    let s := set_nextStartTime 0 s in
    set_currentOutput "" s
  else s.

(** onmessage (lines 163-236) *)
Definition onmessage (env : Env) (message : LiveServerMessage) (s : State) : State :=
  let s := handle_transcriptions message s in
  let s := handle_turnComplete env message s in
  (* CRITICAL: If in Test Mode, silence the AI to not interrupt the patient *)
  if AppMode_eqb (appModeRef s) TEST_ACTIVE then s
  else
    let s := handle_audio env message s in
    handle_interruption message s.

(** The 'ended' listener of a scheduled source (lines 216-218). *)
Definition onended (source : nat) (s : State) : State :=
  set_activeSources (Set_delete source (activeSourcesRef (playback s))) s.

Definition onclose (s : State) : State :=
  setConnectionState Disconnected (console_log "Session closed" s).

Definition onerror (s : State) : State :=
  let s := console_log "Session error" s in
  let s := setConnectionState Error s in
  setError (Some "Connection error occurred. Please try again.") s.

(** *** What the hook returns *)

Definition disconnect : State -> State := cleanup.

Definition toggleMute : State -> State := setIsMuted negb.

(** The effect that copies the [appMode] prop into [appModeRef]. *)
Definition sync_appMode (appMode : AppMode) : State -> State :=
  set_appModeRef appMode.

(** ** Everything that can happen to a mounted hook *)

Inductive Op :=
| Connect (API_KEY : option string) (systemInstructionOverride : option string)
          (autoplayBlocked : bool)
| UserMedia (r : MediaResult)
| Fulfil (k : nat)          (* the promise of session [k] fulfils *)
| Open (k : nat)
| Message (env : Env) (message : LiveServerMessage)
| Close
| Failure
| AudioProcess (p : nat) (inputData : list Q)
| Ended (source : nat)
| Disconnect
| ToggleMute
| AppModeChange (appMode : AppMode).

Definition run (o : Op) : State -> State :=
  match o with
  | Connect key i blocked => connect key i blocked
  | UserMedia r => connect_resume r
  | Fulfil k => session_fulfils k
  | Open k => onopen k
  | Message env m => onmessage env m
  | Close => onclose
  | Failure => onerror
  | AudioProcess p d => onaudioprocess p d
  | Ended src => onended src
  | Disconnect => disconnect
  | ToggleMute => toggleMute
  | AppModeChange m => sync_appMode m
  end.

Definition run_all (ops : list Op) (s : State) : State :=
  fold_left (fun s o => run o s) ops s.

(** Readers used in the statements. *)
Definition cursor (s : State) : Q := nextStartTimeRef (playback s).
Definition activeSet (s : State) : list nat := activeSourcesRef (playback s).
Definition userBuffer (s : State) : string := currentInputTranscriptionRef (session s).
Definition modelBuffer (s : State) : string := currentOutputTranscriptionRef (session s).
(** The sessions that are not closed, the contexts that are not closed. *)
Definition open_ids (l : list Session) : list nat :=
  map sid (filter (fun e => negb (closed e)) l).

(** [session.close()] was called, or waits for the promise to fulfil. *)
Definition closing (e : Session) : bool :=
  closed e || (negb (fulfilled e) && existsb is_close (reactions e)).

(** The sessions the hook has not given up: neither closed nor about to
    be. *)
Definition retained_ids (l : list Session) : list nat :=
  map sid (filter (fun e => negb (closing e)) l).

Definition open_ctx (l : list (nat * ContextState)) : list nat :=
  map fst (filter (fun e => match snd e with Closed => false | _ => true end) l).

Definition openSessions (s : State) : list nat := open_ids (sessions (browser s)).
Definition retainedSessions (s : State) : list nat :=
  retained_ids (sessions (browser s)).

(** Every session promise fulfils. *)
Definition settle (s : State) : State :=
  fold_left (fun s k => session_fulfils k s) (map sid (sessions (browser s))) s.
Definition openContexts (s : State) : list nat := open_ctx (contexts (browser s)).

(** The inbound events of the remote service, one per message. *)
Definition inputTranscriptionFragment (t : string) : LiveServerMessage :=
  {| outputTranscription := None;
     inputTranscription := Some {| transcription_text := Some t |};
     turnComplete := false; inlineData := None; interrupted := false |}.

Definition outputTranscriptionFragment (t : string) : LiveServerMessage :=
  {| outputTranscription := Some {| transcription_text := Some t |};
     inputTranscription := None;
     turnComplete := false; inlineData := None; interrupted := false |}.

Definition turnCompleteSignal : LiveServerMessage :=
  {| outputTranscription := None; inputTranscription := None;
     turnComplete := true; inlineData := None; interrupted := false |}.

Definition audioChunk (base64 : string) : LiveServerMessage :=
  {| outputTranscription := None; inputTranscription := None;
     turnComplete := false; inlineData := Some base64; interrupted := false |}.

Definition interruptedSignal : LiveServerMessage :=
  {| outputTranscription := None; inputTranscription := None;
     turnComplete := false; inlineData := None; interrupted := true |}.

(** The messages of a conversation, handled one after the other. *)
Definition run_messages (ms : list (Env * LiveServerMessage)) (s : State) : State :=
  fold_left (fun s em => onmessage (fst em) (snd em) s) ms s.

(** What a message adds to a buffer: the text of its transcription, if it
    has one. *)
Definition fragment (o : option Transcription) : string :=
  match o with Some t => Js.toString (transcription_text t) | None => "" end.

Definition join (l : list string) : string := fold_right append "" l.

Definition input_fragments (ms : list (Env * LiveServerMessage)) : string :=
  join (map (fun em => fragment (inputTranscription (snd em))) ms).

Definition output_fragments (ms : list (Env * LiveServerMessage)) : string :=
  join (map (fun em => fragment (outputTranscription (snd em))) ms).

(** A message that neither completes nor interrupts the turn. *)
Definition within_turn (em : Env * LiveServerMessage) : Prop :=
  turnComplete (snd em) = false /\ interrupted (snd em) = false.

(** The two steps of [onmessage] that come before the test-mode return. *)
Definition transcribe (env : Env) (message : LiveServerMessage) (s : State) : State :=
  handle_turnComplete env message (handle_transcriptions message s).

(** The ChatMessages a turn-complete signal emits for the two buffers. *)
Definition emitted (env : Env) (userText modelText : string) : list ChatMessage :=
  let emitUser := Js.truthy (Js.trim userText) in
  ((if emitUser
    then [{| role := user; text := userText; timestamp := Date_now env 0 |}]
    else [])
   ++ (if Js.truthy (Js.trim modelText)
       then [{| role := model; text := modelText;
                timestamp := Date_now env (if emitUser then 1 else 0) |}]
       else []))%list.

(** The output device is there: what lines 198-199 ask for besides a chunk. *)
Definition output_ready (s : State) : Prop :=
  outputAudioContextRef (audio s) <> None /\ outputNodeRef (audio s) <> None.

(** A message whose chunk is scheduled: it has one, the chunk decodes, and
    the message does not interrupt. *)
Definition schedulable (env : Env) (m : LiveServerMessage) (buf : AudioBuffer) : Prop :=
  exists d, inlineData m = Some d /\ Js.truthy d = true
            /\ decodeAudioData env d = Some buf /\ interrupted m = false.

(** The operations that put the cursor back: a [connect] and a message
    with the interrupted signal. *)
Definition resets (o : Op) : bool :=
  match o with
  | Connect _ _ _ => true
  | Message _ m => interrupted m
  | _ => false
  end.

Definition opt_list {A} (o : option A) : list A :=
  match o with Some x => [x] | None => [] end.

(** The refs hold every microphone stream that is live and every remote
    session the hook has not given up. *)
Definition tracked (s : State) : Prop :=
  liveStreams (browser s) = opt_list (streamRef (audio s))
  /\ retainedSessions s = opt_list (sessionPromiseRef (session s)).

(** The context of a ref, if the ref holds one, is closed. *)
Definition close_opt (o : option nat) (l : list (nat * ContextState)) :
    list (nat * ContextState) :=
  match o with
  | Some c => mark_context c Closed l
  | None => l
  end.


(** ** A session to evaluate the hook on *)

(** An environment whose device clock shows [now] and in which every
    payload decodes to one second of audio. *)
Definition example_env (now : Q) : Env :=
  {| currentTime := now;
     Date_now := fun k => (1700000000000 + Z.of_nat k)%Z;
     decodeAudioData := fun _ => Some {| frames := 24000 |} |}.

(** A mounted hook that was connected with a credential, was granted the
    microphone and saw its session (number 5) open and the promise of that
    session fulfil; its capture processor is number 7. *)
Definition live_session : State :=
  run_all [Connect (Some "key") None false; UserMedia Granted; Open 5; Fulfil 5]
          (initial CONVERSATION).

(** The same, while the model speaks: a fragment of its transcript and one
    chunk of audio (source 8) have arrived. *)
Definition playing : State :=
  run_messages [(example_env 1, outputTranscriptionFragment "Hi");
                (example_env 1, audioChunk "AAAA")] live_session.

(** * Further definitions: invariants, the countdown, the clinician's view,
    the application *)

(** Nothing is held: the state a teardown leaves. *)
Definition released (s : State) : Prop :=
  activeSet s = []
  /\ streamRef (audio s) = None /\ sourceRef (audio s) = None
  /\ scriptProcessorRef (audio s) = None
  /\ inputAudioContextRef (audio s) = None
  /\ outputAudioContextRef (audio s) = None
  /\ sessionPromiseRef (session s) = None.

(** The sources [source.start] was called on, oldest first. *)
Definition scheduledSources (s : State) : list nat :=
  map sch_source (started (log s)).

(** The playback queue is in order: no source twice in the set or in the
    log, the set within the log, the log below the allocation counter. *)
Definition playback_wf (s : State) : Prop :=
  NoDup (activeSet s)
  /\ NoDup (scheduledSources s)
  /\ (forall src, In src (activeSet s) -> In src (scheduledSources s))
  /\ (forall src, In src (scheduledSources s) -> src < fresh (browser s))%nat.

(** How one operation moves the playback queue: it schedules nothing and
    only removes sources from the active set, or it schedules one new
    source. *)
Definition playback_step (s s' : State) : Prop :=
  (fresh (browser s) <= fresh (browser s'))%nat
  /\ ((started (log s') = started (log s)
       /\ (activeSet s' = activeSet s \/ activeSet s' = []
           \/ exists src, activeSet s' = Set_delete src (activeSet s)))
      \/ (exists sch,
            sch_source sch = fresh (browser s)
            /\ started (log s') = (started (log s) ++ [sch])%list
            /\ fresh (browser s') = S (fresh (browser s))
            /\ (activeSet s' = Set_add (fresh (browser s)) (activeSet s)
                \/ activeSet s' = []))).

(** ** One session at a time *)

(** No [connect] while another waits for the microphone; anything else at
    any time. *)
Definition admissible (o : Op) (s : State) : Prop :=
  match o with
  | Connect _ _ _ => pendingConnects (browser s) = []
  | _ => True
  end.

(** The states a mounted hook reaches that way. *)
Inductive reachable : State -> Prop :=
| reachable_initial appMode : reachable (initial appMode)
| reachable_run o s : reachable s -> admissible o s -> reachable (run o s).

(** What such a run keeps: the refs hold all that is alive, a stream only
    with a session, and a waiting [connect] only without one. *)
Definition single_session (s : State) : Prop :=
  tracked s
  /\ (sessionPromiseRef (session s) = None -> streamRef (audio s) = None)
  /\ (pendingConnects (browser s) <> [] -> sessionPromiseRef (session s) = None)
  /\ (List.length (pendingConnects (browser s)) <= 1)%nat.

(** The part of the state the session lifecycle lives in. *)
Definition lifecycle (s : State) :=
  (liveStreams (browser s), retainedSessions s, pendingConnects (browser s),
   streamRef (audio s), sessionPromiseRef (session s)).

(** ** The volume meter *)

(** The mean of the squares of a block's samples. *)
Definition mean_square (block : list Q) : Q :=
  fold_right Qplus 0 (map (fun x => x * x) block)
  / inject_Z (Z.of_nat (List.length block)).

(** ** White space *)

(** Empty, or white space throughout. *)
Definition blank (s : string) : bool :=
  forallb Js.isWhiteSpace (list_ascii_of_string s).

(** ** components/PatientView.tsx: the countdown of a test *)

Inductive TestType := SEMANTIC | PHONEMIC.   (* [null] is [None] *)

(** 15s for Semantic, 60s for others *)
Definition test_duration (testType : option TestType) : Z :=
  match testType with Some SEMANTIC => 15 | _ => 60 end%Z.

Record Countdown := {
  timeLeft : Z;
  timerRef : option nat;        (* the interval last created *)
  intervals : list nat;         (* the intervals that still fire *)
  nextInterval : nat;
  completions : nat             (* calls of onTestComplete *)
}.

(** [if (timerRef.current) clearInterval(timerRef.current)] *)
Definition clearInterval (o : option nat) (c : Countdown) : Countdown :=
  match o with
  | Some id => {| timeLeft := timeLeft c; timerRef := timerRef c;
                  intervals := Set_delete id (intervals c);
                  nextInterval := nextInterval c; completions := completions c |}
  | None => c
  end.

(** The body of the timer effect (lines 42-57). *)
Definition timer_effect (appMode : AppMode) (duration : Z) (c : Countdown) : Countdown :=
  if AppMode_eqb appMode TEST_ACTIVE then
    {| timeLeft := duration; timerRef := Some (nextInterval c);
       intervals := intervals c ++ [nextInterval c];
       nextInterval := S (nextInterval c); completions := completions c |}
  else
    let c := clearInterval (timerRef c) c in
    {| timeLeft := duration; timerRef := timerRef c; intervals := intervals c;
       nextInterval := nextInterval c; completions := completions c |}.

(** What the effect returns, run before the effect runs again (lines 58-60). *)
Definition timer_cleanup (c : Countdown) : Countdown := clearInterval (timerRef c) c.

(** The callback of interval [id] (lines 44-53); an interval that was
    cleared fires no more. *)
Definition interval_fires (id : nat) (c : Countdown) : Countdown :=
  if existsb (Nat.eqb id) (intervals c) then
    if (timeLeft c <=? 1)%Z then
      let c := clearInterval (timerRef c) c in
      {| timeLeft := 0; timerRef := timerRef c; intervals := intervals c;
         nextInterval := nextInterval c; completions := S (completions c) |}
    else
      {| timeLeft := timeLeft c - 1; timerRef := timerRef c;
         intervals := intervals c; nextInterval := nextInterval c;
         completions := completions c |}
  else c.

(** The test goes active: the cleanup of the last run, then the effect. *)
Definition test_starts (testType : option TestType) (c : Countdown) : Countdown :=
  timer_effect TEST_ACTIVE (test_duration testType) (timer_cleanup c).

(** Interval [id] comes round [n] times. *)
Definition seconds_pass (n : nat) (id : nat) (c : Countdown) : Countdown :=
  Nat.iter n (interval_fires id) c.

(** ** DoctorView (in components/PatientView.tsx): what the fluency scorer
    is given *)

Definition newline : string := String (ascii_of_nat 10) "".

Definition is_user (t : ChatMessage) : bool :=
  match role t with user => true | model => false end.

(** runFluencyAnalysis (lines 236-250), as far as the text it passes to
    analyzeFluencySession: the user's messages of the last 90 seconds, one
    a line; [None] when it returns without asking. *)
Definition runFluencyAnalysis (API_KEY : option string) (now : Z)
    (transcript : list ChatMessage) : option string :=
  if negb (has_key API_KEY) || (List.length transcript =? 0)%nat then None
  else
    let testStartTime := (now - 90000)%Z in
    Some (String.concat newline
            (map text
               (filter (fun t => is_user t && (testStartTime <? timestamp t)%Z)
                       transcript))).

(** ** App.tsx: switching the persona *)

Definition proctorInstruction (type : option TestType) : string :=
  let taskName := match type with
                  | Some SEMANTIC => "Semantic Fluency (Animals)"
                  | _ => "Phonemic Fluency (Letter F)"
                  end in
  let instructions := match type with
                      | Some SEMANTIC => "ask the user to name as many animals as they can"
                      | _ => "ask the user to name as many words starting with F as they can"
                      end in
  "
        SYSTEM ALERT: The doctor has initiated a "
  ++ taskName ++
  " activity.
        You are now acting as a PROCTOR.
        
        IMMEDIATE ACTION REQUIRED:
        1. Acknowledge the transition gently.
        2. Explain to the user that we are going to play a word game.
        3. Your goal is to "
  ++ instructions ++
  ".
        4. Tell them to press the RED PLAY BUTTON on their screen when they are ready to start.
        5. Do not start the test yourself, strictly wait for them to press the button.
        6. IMPORTANT: Conduct this entire interaction in English only.
    ".

Record App := {
  appMode : AppMode;
  testType : option TestType;
  hook : State;
  timeouts : list (option string)   (* waiting [connect]s, with their argument *)
}.

(** The render that follows [setAppMode] copies the mode into the hook's
    ref (useLiveSession.ts, lines 27-29). *)
Definition setAppMode (m : AppMode) (a : App) : App :=
  {| appMode := m; testType := testType a; hook := sync_appMode m (hook a);
     timeouts := timeouts a |}.

Definition setTestType (t : option TestType) (a : App) : App :=
  {| appMode := appMode a; testType := t; hook := hook a; timeouts := timeouts a |}.

(** [disconnect(); setTimeout(() => connect(instruction), 300)] *)
Definition reconnect_later (instruction : option string) (a : App) : App :=
  {| appMode := appMode a; testType := testType a;
     hook := disconnect (hook a);
     timeouts := timeouts a ++ [instruction] |}.

(** handleSetupTest (lines 32-64) *)
Definition handleSetupTest (type : option TestType) (a : App) : App :=
  let a := setTestType type a in
  let a := setAppMode TEST_SETUP a in
  reconnect_later (Some (proctorInstruction type)) a.

(** handleTestComplete (lines 66-75) *)
Definition handleTestComplete (a : App) : App :=
  let a := setAppMode CONVERSATION a in
  let a := setTestType None a in
  reconnect_later None a.

(** handleCancelTest (lines 77-86) *)
Definition handleCancelTest (a : App) : App :=
  let a := setAppMode CONVERSATION a in
  let a := setTestType None a in
  reconnect_later None a.

(** onStartTest (line 99) *)
Definition onStartTest (a : App) : App := setAppMode TEST_ACTIVE a.

(** The oldest timeout fires: its [connect] is called. *)
Definition timeout_fires (API_KEY : option string) (autoplayBlocked : bool)
    (a : App) : App :=
  match timeouts a with
  | [] => a
  | i :: rest => {| appMode := appMode a; testType := testType a;
                    hook := connect API_KEY i autoplayBlocked (hook a);
                    timeouts := rest |}
  end.

(** The hook's own asynchronous events, seen from the app. *)
Definition hook_runs (o : Op) (a : App) : App :=
  {| appMode := appMode a; testType := testType a; hook := run o (hook a);
     timeouts := timeouts a |}.

(** A countdown from [d] on interval [id], [n] seconds after its start. *)
Definition counting (d : Z) (id : nat) (done : nat) (n : nat) (c : Countdown) : Prop :=
  timerRef c = Some id
  /\ ((Z.of_nat n < d)%Z ->
      timeLeft c = (d - Z.of_nat n)%Z /\ completions c = done
      /\ In id (intervals c))
  /\ ((d <= Z.of_nat n)%Z ->
      timeLeft c = 0%Z /\ completions c = S done /\ ~ In id (intervals c)).

(** The operations that can emit: the messages with the turn-complete
    signal. *)
Definition completes_turn (o : Op) : bool :=
  match o with
  | Message _ m => turnComplete m
  | _ => false
  end.

(** An environment in which no payload decodes. *)
Definition failing_env (now : Q) : Env :=
  {| currentTime := now;
     Date_now := fun k => (1700000000000 + Z.of_nat k)%Z;
     decodeAudioData := fun _ => None |}.

(** The hook after [connect] was granted the microphone, before its
    session (number 5) opens. *)
Definition granted_session : State :=
  run_all [Connect (Some "key") None false; UserMedia Granted]
          (initial CONVERSATION).

(** The countdown of a view that has just been mounted for the semantic
    test. *)
Definition idle_countdown : Countdown :=
  {| timeLeft := 15; timerRef := None; intervals := []; nextInterval := 0;
     completions := 0 |}.

(** An application in conversation mode around [live_session]. *)
Definition example_app : App :=
  {| appMode := CONVERSATION; testType := None; hook := live_session;
     timeouts := [] |}.

(** * Properties *)

(** ** Modes *)

Lemma AppMode_eqb_eq a b : AppMode_eqb a b = true <-> a = b.
Proof. destruct a, b; simpl; split; congruence. Qed.

(** ** Strings *)

Lemma append_assoc (a b c : string) : (a ++ b) ++ c = a ++ (b ++ c).
Proof. induction a as [|x a IH]; simpl; [reflexivity | now rewrite IH]. Qed.

Lemma append_nil_r (a : string) : a ++ "" = a.
Proof. induction a as [|x a IH]; simpl; [reflexivity | now rewrite IH]. Qed.

(** ** What the transcript steps leave alone *)

Lemma handle_transcriptions_frame m s :
  let s' := handle_transcriptions m s in
  react s' = react s /\ appModeRef s' = appModeRef s /\ audio s' = audio s
  /\ playback s' = playback s /\ browser s' = browser s /\ log s' = log s.
Proof.
  unfold handle_transcriptions.
  destruct (outputTranscription m), (inputTranscription m); simpl; tauto.
Qed.

Lemma handle_transcriptions_buffers m s :
  userBuffer (handle_transcriptions m s)
    = userBuffer s ++ fragment (inputTranscription m)
  /\ modelBuffer (handle_transcriptions m s)
    = modelBuffer s ++ fragment (outputTranscription m).
Proof.
  unfold handle_transcriptions, userBuffer, modelBuffer.
  destruct (outputTranscription m), (inputTranscription m); simpl;
    now rewrite ?append_nil_r.
Qed.

Lemma handle_turnComplete_frame env m s :
  let s' := handle_turnComplete env m s in
  react s' = react s /\ appModeRef s' = appModeRef s /\ audio s' = audio s
  /\ playback s' = playback s /\ browser s' = browser s
  /\ decodeCalls (log s') = decodeCalls (log s)
  /\ started (log s') = started (log s)
  /\ stopped (log s') = stopped (log s)
  /\ sent (log s') = sent (log s).
Proof.
  unfold handle_turnComplete.
  destruct (turnComplete m); [|simpl; tauto].
  destruct (Js.truthy (Js.trim (currentInputTranscriptionRef (session s))));
    destruct (Js.truthy (Js.trim (currentOutputTranscriptionRef (session s))));
    simpl; tauto.
Qed.

Lemma handle_turnComplete_effect env m s :
  turnComplete m = true ->
  let s' := handle_turnComplete env m s in
  userBuffer s' = "" /\ modelBuffer s' = ""
  /\ transcript (log s')
     = (transcript (log s) ++ emitted env (userBuffer s) (modelBuffer s))%list.
Proof.
  intros H. unfold handle_turnComplete, emitted, userBuffer, modelBuffer.
  rewrite H.
  destruct (Js.truthy (Js.trim (currentInputTranscriptionRef (session s))));
    destruct (Js.truthy (Js.trim (currentOutputTranscriptionRef (session s))));
    simpl; repeat split; rewrite <- ?app_assoc, ?app_nil_r; reflexivity.
Qed.

Lemma handle_turnComplete_skip env m s :
  turnComplete m = false -> handle_turnComplete env m s = s.
Proof. intros H. unfold handle_turnComplete. now rewrite H. Qed.

Lemma transcribe_frame env m s :
  let s' := transcribe env m s in
  react s' = react s /\ appModeRef s' = appModeRef s /\ audio s' = audio s
  /\ playback s' = playback s /\ browser s' = browser s
  /\ decodeCalls (log s') = decodeCalls (log s)
  /\ started (log s') = started (log s)
  /\ stopped (log s') = stopped (log s)
  /\ sent (log s') = sent (log s).
Proof.
  unfold transcribe.
  destruct (handle_transcriptions_frame m s) as (a & b & c & d & e & f).
  destruct (handle_turnComplete_frame env m (handle_transcriptions m s))
    as (a' & b' & c' & d' & e' & f' & g' & h' & i').
  simpl in *. rewrite a', b', c', d', e', f', g', h', i', a, b, c, d, e, f.
  tauto.
Qed.

Lemma onmessage_unfold env m s :
  onmessage env m s =
  if AppMode_eqb (appModeRef s) TEST_ACTIVE then transcribe env m s
  else handle_interruption m (handle_audio env m (transcribe env m s)).
Proof.
  unfold onmessage. fold (transcribe env m s).
  destruct (transcribe_frame env m s) as (_ & -> & _). reflexivity.
Qed.

Lemma onmessage_test_active env m s :
  appModeRef s = TEST_ACTIVE -> onmessage env m s = transcribe env m s.
Proof. intros H. rewrite onmessage_unfold, H. reflexivity. Qed.

Lemma onmessage_audible env m s :
  appModeRef s <> TEST_ACTIVE ->
  onmessage env m s = handle_interruption m (handle_audio env m (transcribe env m s)).
Proof.
  intros H. rewrite onmessage_unfold.
  destruct (AppMode_eqb (appModeRef s) TEST_ACTIVE) eqn:E; [|reflexivity].
  apply AppMode_eqb_eq in E. contradiction.
Qed.

(** ** Stopping the active set *)

Lemma forEach_stop_eq s : forEach_stop s = stop_all s.
Proof.
  unfold forEach_stop, stop_all. generalize (activeSourcesRef (playback s)) as l.
  intros l. revert s. induction l as [|x l IH]; intros s; simpl.
  - destruct s as [r m a p se b [t d st sp sn c]]. unfold on_log. simpl.
    now rewrite app_nil_r.
  - rewrite IH. destruct s as [r m a p se b [t d st sp sn c]].
    unfold on_log, source_stop. simpl. now rewrite <- app_assoc.
Qed.

Lemma stop_all_spec s :
  let s' := stop_all s in
  react s' = react s /\ appModeRef s' = appModeRef s /\ audio s' = audio s
  /\ playback s' = playback s /\ session s' = session s /\ browser s' = browser s
  /\ transcript (log s') = transcript (log s)
  /\ decodeCalls (log s') = decodeCalls (log s)
  /\ started (log s') = started (log s)
  /\ sent (log s') = sent (log s)
  /\ stopped (log s') = (stopped (log s) ++ activeSet s)%list.
Proof. repeat split; reflexivity. Qed.

Lemma Set_add_incl x y l : In y l -> In y (Set_add x l).
Proof.
  induction l as [|z l IH]; simpl; [tauto|].
  destruct (Nat.eqb x z); simpl; tauto.
Qed.

Lemma Set_add_In x l : In x (Set_add x l).
Proof.
  induction l as [|z l IH]; simpl; [tauto|].
  destruct (Nat.eqb x z) eqn:E; simpl; [|tauto].
  apply Nat.eqb_eq in E. subst. tauto.
Qed.

(** ** The mode gate *)

(** C1. A message handled while the operating mode is test-active, whether
    or not it carries an audio chunk, causes no decode and no scheduling:
    no call of decodeAudioData, no buffer source created or started, and
    the playback queue (active set and cursor) is as it was. *)
Theorem test_active_discards_audio env message s :
  appModeRef s = TEST_ACTIVE ->
  let s' := onmessage env message s in
  decodeCalls (log s') = decodeCalls (log s)
  /\ started (log s') = started (log s)
  /\ fresh (browser s') = fresh (browser s)
  /\ activeSet s' = activeSet s
  /\ cursor s' = cursor s.
Proof.
  intros H s'. subst s'. rewrite (onmessage_test_active _ _ _ H).
  destruct (transcribe_frame env message s) as (_ & _ & _ & P & B & D & S & _).
  unfold activeSet, cursor. rewrite P, B, D, S. tauto.
Qed.

(** C10. While the operating mode is test-active an interrupted signal does
    nothing: the handler returns after the transcript steps, so no source
    is stopped, the active set and the cursor are unchanged, and the model
    buffer is not cleared by the interruption; the fragments and the
    turn-complete signal of the same message are still processed. *)
Theorem test_active_ignores_interruption env message s :
  appModeRef s = TEST_ACTIVE ->
  interrupted message = true ->
  let s' := onmessage env message s in
  stopped (log s') = stopped (log s)
  /\ activeSet s' = activeSet s
  /\ cursor s' = cursor s
  /\ s' = transcribe env message s
  /\ userBuffer s'
     = (if turnComplete message then ""
        else userBuffer s ++ fragment (inputTranscription message))
  /\ modelBuffer s'
     = (if turnComplete message then ""
        else modelBuffer s ++ fragment (outputTranscription message))
  /\ (turnComplete message = true ->
      transcript (log s')
      = (transcript (log s)
           ++ emitted env
                (userBuffer s ++ fragment (inputTranscription message))
                (modelBuffer s ++ fragment (outputTranscription message)))%list).
Proof.
  intros H _ s'. subst s'. rewrite (onmessage_test_active _ _ _ H).
  destruct (transcribe_frame env message s) as (_ & _ & _ & P & _ & _ & _ & S & _).
  unfold activeSet, cursor. rewrite P, S.
  repeat split; unfold transcribe.
  - destruct (turnComplete message) eqn:T.
    + now destruct (handle_turnComplete_effect env message
                      (handle_transcriptions message s) T) as (-> & _).
    + rewrite (handle_turnComplete_skip _ _ _ T).
      apply handle_transcriptions_buffers.
  - destruct (turnComplete message) eqn:T.
    + now destruct (handle_turnComplete_effect env message
                      (handle_transcriptions message s) T) as (_ & -> & _).
    + rewrite (handle_turnComplete_skip _ _ _ T).
      apply handle_transcriptions_buffers.
  - intros T.
    destruct (handle_turnComplete_effect env message
                (handle_transcriptions message s) T) as (_ & _ & ->).
    destruct (handle_transcriptions_buffers message s) as (-> & ->).
    destruct (handle_transcriptions_frame message s) as (_ & _ & _ & _ & _ & ->).
    reflexivity.
Qed.

(** ** Audio output and interruption *)

Lemma handle_audio_frame env m s :
  let s' := handle_audio env m s in
  react s' = react s /\ appModeRef s' = appModeRef s /\ audio s' = audio s
  /\ session s' = session s
  /\ transcript (log s') = transcript (log s)
  /\ stopped (log s') = stopped (log s)
  /\ sent (log s') = sent (log s)
  /\ (forall src, In src (activeSet s) -> In src (activeSet s')).
Proof.
  unfold handle_audio, activeSet.
  destruct (inlineData m) as [d|]; [|simpl; tauto].
  destruct (Js.truthy d && Js.present (outputAudioContextRef (audio s))
            && Js.present (outputNodeRef (audio s))); [|simpl; tauto].
  simpl. destruct (decodeAudioData env d); simpl; repeat split; auto.
  intros src. apply Set_add_incl.
Qed.

Lemma handle_interruption_effect m s :
  interrupted m = true ->
  let s' := handle_interruption m s in
  activeSet s' = [] /\ cursor s' = 0 /\ modelBuffer s' = ""
  /\ userBuffer s' = userBuffer s
  /\ stopped (log s') = (stopped (log s) ++ activeSet s)%list
  /\ started (log s') = started (log s)
  /\ transcript (log s') = transcript (log s).
Proof.
  intros H. unfold handle_interruption. rewrite H.
  repeat split; reflexivity.
Qed.

Lemma handle_interruption_skip m s :
  interrupted m = false -> handle_interruption m s = s.
Proof. intros H. unfold handle_interruption. now rewrite H. Qed.

(** C3, as the code has it.  An interrupted signal handled while the
    operating mode is not test-active stops every unit of the active set
    (the one the same message scheduled included), empties the set, puts
    the cursor back to zero and discards the model buffer. *)
Theorem interrupted_resets_playback env message s :
  appModeRef s <> TEST_ACTIVE ->
  interrupted message = true ->
  let s' := onmessage env message s in
  activeSet s' = []
  /\ cursor s' = 0
  /\ modelBuffer s' = ""
  /\ (forall src, In src (activeSet s) -> In src (stopped (log s')))
  /\ (forall sch, In sch (started (log s')) ->
        In sch (started (log s)) \/ In (sch_source sch) (stopped (log s'))).
Proof.
  intros H I s'. subst s'. rewrite (onmessage_audible _ _ _ H).
  set (t := transcribe env message s).
  destruct (handle_interruption_effect message (handle_audio env message t) I)
    as (A & C & M & _ & K & S & _).
  rewrite A, C, M, K, S. repeat split.
  - intros src Hs. apply in_or_app. right.
    apply (handle_audio_frame env message t).
    unfold activeSet, t.
    destruct (transcribe_frame env message s) as (_ & _ & _ & -> & _). exact Hs.
  - intros sch Hs.
    assert (St : started (log t) = started (log s))
      by (apply (transcribe_frame env message s)).
    revert Hs. unfold handle_audio, activeSet.
    destruct (inlineData message) as [d|]; [|rewrite St; tauto].
    destruct (Js.truthy d && Js.present (outputAudioContextRef (audio t))
              && Js.present (outputNodeRef (audio t))); [|rewrite St; tauto].
    simpl. destruct (decodeAudioData env d); simpl; [|rewrite St; tauto].
    rewrite St. intros Hs. apply in_app_or in Hs. destruct Hs as [Hs|[<-|[]]].
    + now left.
    + right. simpl. apply in_or_app. right. apply Set_add_In.
Qed.

(** ** Turn completion *)

(** C5. After a message with the turn-complete signal has been handled,
    both turn buffers are the empty string, whatever was emitted and
    whatever else the message carried. *)
Theorem turnComplete_clears_buffers env message s :
  turnComplete message = true ->
  let s' := onmessage env message s in
  userBuffer s' = "" /\ modelBuffer s' = "".
Proof.
  intros T s'. subst s'. rewrite onmessage_unfold.
  destruct (handle_turnComplete_effect env message
              (handle_transcriptions message s) T) as (U & M & _).
  fold (transcribe env message s) in U, M.
  destruct (AppMode_eqb (appModeRef s) TEST_ACTIVE); [tauto|].
  set (t := transcribe env message s) in *.
  assert (Sa : session (handle_audio env message t) = session t)
    by (apply handle_audio_frame).
  destruct (interrupted message) eqn:I.
  - destruct (handle_interruption_effect message (handle_audio env message t) I)
      as (_ & _ & M' & U' & _).
    rewrite M', U'. unfold userBuffer. rewrite Sa. tauto.
  - rewrite (handle_interruption_skip _ _ I).
    unfold userBuffer, modelBuffer in *. rewrite Sa. tauto.
Qed.

Lemma onmessage_within_turn env m s :
  within_turn (env, m) ->
  let s' := onmessage env m s in
  userBuffer s' = userBuffer s ++ fragment (inputTranscription m)
  /\ modelBuffer s' = modelBuffer s ++ fragment (outputTranscription m)
  /\ transcript (log s') = transcript (log s).
Proof.
  intros [T I]. simpl in T, I. cbv zeta. rewrite onmessage_unfold.
  unfold transcribe. rewrite (handle_turnComplete_skip _ _ _ T).
  set (t := handle_transcriptions m s).
  destruct (handle_transcriptions_buffers m s) as (U & M). fold t in U, M.
  assert (L : transcript (log t) = transcript (log s)).
  { destruct (handle_transcriptions_frame m s) as (_ & _ & _ & _ & _ & L).
    fold t in L. now rewrite L. }
  destruct (AppMode_eqb (appModeRef s) TEST_ACTIVE); [tauto|].
  rewrite (handle_interruption_skip _ _ I).
  destruct (handle_audio_frame env m t) as (_ & _ & _ & Sa & La & _).
  unfold userBuffer, modelBuffer in *. rewrite Sa, La. tauto.
Qed.

Lemma join_app l1 l2 : join (l1 ++ l2) = join l1 ++ join l2.
Proof.
  induction l1 as [|x l1 IH]; simpl; [reflexivity|].
  now rewrite IH, append_assoc.
Qed.

Lemma run_messages_within_turn ms s :
  Forall within_turn ms ->
  let s' := run_messages ms s in
  userBuffer s' = userBuffer s ++ input_fragments ms
  /\ modelBuffer s' = modelBuffer s ++ output_fragments ms
  /\ transcript (log s') = transcript (log s).
Proof.
  intros H. revert s. induction H as [|[env m] ms Hm _ IH]; intros s; simpl.
  - unfold input_fragments, output_fragments. simpl.
    now rewrite !append_nil_r.
  - specialize (IH (onmessage env m s)). cbv zeta in IH.
    destruct IH as (U & M & L).
    destruct (onmessage_within_turn env m s Hm) as (U' & M' & L').
    unfold run_messages in *. simpl. rewrite U, M, L, U', M', L'.
    unfold input_fragments, output_fragments. simpl.
    now rewrite !append_assoc.
Qed.

Lemma run_messages_app ms1 ms2 s :
  run_messages (ms1 ++ ms2) s = run_messages ms2 (run_messages ms1 s).
Proof. apply fold_left_app. Qed.

Lemma onmessage_turnComplete env m s :
  turnComplete m = true ->
  transcript (log (onmessage env m s))
  = (transcript (log s)
       ++ emitted env (userBuffer s ++ fragment (inputTranscription m))
                      (modelBuffer s ++ fragment (outputTranscription m)))%list.
Proof.
  intros T. rewrite onmessage_unfold.
  assert (E : transcript (log (transcribe env m s))
              = (transcript (log s)
                   ++ emitted env (userBuffer s ++ fragment (inputTranscription m))
                        (modelBuffer s ++ fragment (outputTranscription m)))%list).
  { unfold transcribe.
    destruct (handle_turnComplete_effect env m (handle_transcriptions m s) T)
      as (_ & _ & ->).
    destruct (handle_transcriptions_buffers m s) as (-> & ->).
    destruct (handle_transcriptions_frame m s) as (_ & _ & _ & _ & _ & ->).
    reflexivity. }
  destruct (AppMode_eqb (appModeRef s) TEST_ACTIVE); [exact E|].
  set (t := transcribe env m s) in *.
  destruct (handle_audio_frame env m t) as (_ & _ & _ & _ & La & _).
  destruct (interrupted m) eqn:I.
  - destruct (handle_interruption_effect m (handle_audio env m t) I)
      as (_ & _ & _ & _ & _ & _ & ->).
    now rewrite La.
  - rewrite (handle_interruption_skip _ _ I). now rewrite La.
Qed.

(** C4. The fragments of a turn are appended to their role's buffer as they
    arrive, unchanged; the turn-complete signal then emits, for each
    buffer whose trimmed text is not empty, one ChatMessage with that
    role, the whole untrimmed text and the date read at that emission,
    the user's before the model's ([emitted]).  Fragments [Hel] and
    [lo there] of the user followed by the signal give one ChatMessage,
    of the user, with text [Hello there]. *)
Theorem turnComplete_emits_turn ms env message s :
  Forall within_turn ms ->
  turnComplete message = true ->
  let turn := (ms ++ [(env, message)])%list in
  let userText := userBuffer s ++ input_fragments turn in
  let modelText := modelBuffer s ++ output_fragments turn in
  userBuffer (run_messages ms s) = userBuffer s ++ input_fragments ms
  /\ modelBuffer (run_messages ms s) = modelBuffer s ++ output_fragments ms
  /\ transcript (log (run_messages turn s))
     = (transcript (log s)
          ++ (if Js.truthy (Js.trim userText)
              then [{| role := user; text := userText; timestamp := Date_now env 0 |}]
              else [])
          ++ (if Js.truthy (Js.trim modelText)
              then [{| role := model; text := modelText;
                       timestamp := Date_now env
                                      (if Js.truthy (Js.trim userText) then 1 else 0) |}]
              else []))%list
  /\ (forall e1 e2 e3 appMode,
        transcript (log (run_messages
                           [(e1, inputTranscriptionFragment "Hel");
                            (e2, inputTranscriptionFragment "lo there");
                            (e3, turnCompleteSignal)] (initial appMode)))
        = [{| role := user; text := "Hello there"; timestamp := Date_now e3 0 |}]).
Proof.
  intros H T turn userText modelText.
  destruct (run_messages_within_turn ms s H) as (U & M & L).
  repeat split; [exact U | exact M | | ].
  - unfold turn. rewrite run_messages_app. unfold run_messages at 1. simpl.
    rewrite (onmessage_turnComplete _ _ _ T), U, M, L.
    unfold emitted, userText, modelText, turn, input_fragments, output_fragments.
    rewrite !map_app, !join_app. simpl. rewrite !append_nil_r, !append_assoc.
    reflexivity.
  - intros e1 e2 e3 appMode. destruct appMode; reflexivity.
Qed.

(** ** Scheduling *)

Lemma duration_nonneg b : 0 <= duration b.
Proof.
  unfold duration. apply Qle_shift_div_l; [reflexivity|].
  rewrite Qmult_0_l. unfold Qle. simpl. lia.
Qed.

Lemma schedule_chunk env m buf s :
  appModeRef s <> TEST_ACTIVE ->
  output_ready s ->
  schedulable env m buf ->
  let s' := onmessage env m s in
  started (log s')
  = (started (log s)
       ++ [{| sch_source := fresh (browser s);
              sch_when := Qmax (cursor s) (currentTime env);
              sch_buffer := buf |}])%list
  /\ cursor s' = Qmax (cursor s) (currentTime env) + duration buf
  /\ activeSet s' = Set_add (fresh (browser s)) (activeSet s)
  /\ appModeRef s' = appModeRef s
  /\ audio s' = audio s.
Proof.
  intros H [Hc Hn] (d & D & Td & Dec & I). cbv zeta.
  rewrite (onmessage_audible _ _ _ H), (handle_interruption_skip _ _ I).
  destruct (transcribe_frame env m s) as (_ & Ma & Ea & Pa & Ba & _ & Sa & _).
  set (t := transcribe env m s) in *.
  unfold handle_audio, cursor, activeSet. rewrite D, Td, Ea.
  destruct (outputAudioContextRef (audio s)); [|contradiction].
  destruct (outputNodeRef (audio s)); [|contradiction].
  simpl. rewrite Dec. simpl. rewrite Pa, Ba, Sa, Ma, Ea. tauto.
Qed.


(** ** The cursor *)

Lemma handle_audio_cursor env m s : cursor s <= cursor (handle_audio env m s).
Proof.
  unfold handle_audio, cursor.
  destruct (inlineData m) as [d|]; [|apply Qle_refl].
  destruct (Js.truthy d && Js.present (outputAudioContextRef (audio s))
            && Js.present (outputNodeRef (audio s))); [|apply Qle_refl].
  simpl. destruct (decodeAudioData env d) as [b|]; simpl.
  - pose proof (duration_nonneg b).
    pose proof (Q.le_max_l (nextStartTimeRef (playback s)) (currentTime env)).
    lra.
  - apply Q.le_max_l.
Qed.

Lemma onmessage_cursor env m s :
  interrupted m = false -> cursor s <= cursor (onmessage env m s).
Proof.
  intros I. rewrite onmessage_unfold.
  assert (E : cursor (transcribe env m s) = cursor s).
  { unfold cursor. destruct (transcribe_frame env m s) as (_ & _ & _ & -> & _).
    reflexivity. }
  destruct (AppMode_eqb (appModeRef s) TEST_ACTIVE).
  - rewrite E. apply Qle_refl.
  - rewrite (handle_interruption_skip _ _ I), <- E. apply handle_audio_cursor.
Qed.

(** The session promise: what [then] and the fulfilment leave alone. *)
Lemma fold_sendRealtimeInput k ms s :
  fold_left (fun s media => sendRealtimeInput k media s) ms s
  = on_log (fun l => {| transcript := transcript l; decodeCalls := decodeCalls l;
                        started := started l; stopped := stopped l;
                        sent := sent l ++ map (pair k) ms;
                        console := console l |}) s.
Proof.
  revert s. induction ms as [|m ms IH]; intros s; simpl.
  - destruct s as [r a au p se b [t d st sp sn c]]. unfold on_log. simpl.
    now rewrite app_nil_r.
  - rewrite IH. destruct s as [r a au p se b [t d st sp sn c]].
    unfold sendRealtimeInput, on_log. simpl. now rewrite <- app_assoc.
Qed.

Lemma session_fulfils_eq k s :
  session_fulfils k s
  = on_log (fun l => {| transcript := transcript l; decodeCalls := decodeCalls l;
                        started := started l; stopped := stopped l;
                        sent := sent l ++ map (pair k) (outbox k (sessions (browser s)));
                        console := console l |})
      (update_session k session_fulfilled s).
Proof. apply fold_sendRealtimeInput. Qed.

Lemma promise_then_frame k r s :
  let s' := promise_then k r s in
  react s' = react s /\ appModeRef s' = appModeRef s /\ audio s' = audio s
  /\ playback s' = playback s /\ session s' = session s
  /\ fresh (browser s') = fresh (browser s)
  /\ contexts (browser s') = contexts (browser s)
  /\ liveStreams (browser s') = liveStreams (browser s)
  /\ processors (browser s') = processors (browser s)
  /\ pendingConnects (browser s') = pendingConnects (browser s)
  /\ sessions (browser s')
     = map (fun e => if Nat.eqb (sid e) k then session_then r e else e)
         (sessions (browser s))
  /\ transcript (log s') = transcript (log s)
  /\ decodeCalls (log s') = decodeCalls (log s)
  /\ started (log s') = started (log s)
  /\ stopped (log s') = stopped (log s).
Proof.
  unfold promise_then. destruct r; [|destruct (promise_fulfilled k s)];
    simpl; repeat split; reflexivity.
Qed.

Lemma session_fulfils_frame k s :
  let s' := session_fulfils k s in
  react s' = react s /\ appModeRef s' = appModeRef s /\ audio s' = audio s
  /\ playback s' = playback s /\ session s' = session s
  /\ fresh (browser s') = fresh (browser s)
  /\ contexts (browser s') = contexts (browser s)
  /\ liveStreams (browser s') = liveStreams (browser s)
  /\ processors (browser s') = processors (browser s)
  /\ pendingConnects (browser s') = pendingConnects (browser s)
  /\ sessions (browser s')
     = map (fun e => if Nat.eqb (sid e) k then session_fulfilled e else e)
         (sessions (browser s))
  /\ transcript (log s') = transcript (log s)
  /\ decodeCalls (log s') = decodeCalls (log s)
  /\ started (log s') = started (log s)
  /\ stopped (log s') = stopped (log s).
Proof.
  cbv zeta. rewrite session_fulfils_eq. simpl. repeat split; reflexivity.
Qed.

(** [cleanup] tests six refs: the cases are taken before it is unfolded. *)
Ltac cleanup_cases s :=
  let ic := fresh "ic" in let oc := fresh "oc" in
  let sp := fresh "sp" in let st := fresh "st" in
  let so := fresh "so" in let k := fresh "k" in
  destruct s as [? ? [ic oc ? ? sp st so] ? [k ? ?] ? ?];
  destruct st, so, sp, ic, oc, k.

Lemma cleanup_cursor s : cursor (cleanup s) = cursor s.
Proof. cleanup_cases s; reflexivity. Qed.

Lemma connect_resume_playback r s : playback (connect_resume r s) = playback s.
Proof.
  unfold connect_resume.
  destruct (pendingConnects (browser s)); [reflexivity|].
  destruct r; reflexivity.
Qed.

Lemma onopen_playback k s : playback (onopen k s) = playback s.
Proof.
  unfold onopen.
  destruct (find _ (sessions (browser s))); [|reflexivity].
  repeat match goal with
         | |- context [match ?x with _ => _ end] => destruct x; simpl
         end; reflexivity.
Qed.

Lemma onaudioprocess_playback p d s : playback (onaudioprocess p d s) = playback s.
Proof.
  unfold onaudioprocess.
  destruct (find _ (processors (browser s))) as [pr|]; [|reflexivity].
  destruct (p_isMuted pr); [reflexivity|].
  now rewrite (proj1 (proj2 (proj2 (proj2 (promise_then_frame _ _ _))))).
Qed.

Lemma run_cursor o s : resets o = false -> cursor s <= cursor (run o s).
Proof.
  destruct o; simpl; intros H; try discriminate;
    try (apply Qle_refl).
  - unfold cursor. rewrite connect_resume_playback. apply Qle_refl.
  - unfold cursor.
    rewrite (proj1 (proj2 (proj2 (proj2 (session_fulfils_frame _ _))))).
    apply Qle_refl.
  - unfold cursor. rewrite onopen_playback. apply Qle_refl.
  - now apply onmessage_cursor.
  - unfold cursor. rewrite onaudioprocess_playback. apply Qle_refl.
  - unfold disconnect. rewrite cleanup_cursor. apply Qle_refl.
Qed.

Lemma connect_with_key key i blocked s :
  has_key key = true ->
  cursor (connect key i blocked s) = 0
  /\ connectionState (react (connect key i blocked s)) = Connecting.
Proof.
  intros K. unfold connect. rewrite K. simpl. split; reflexivity.
Qed.

(** C9. The cursor never goes down: over any run of operations none of
    which is a [connect] or a message with the interrupted signal, it ends
    at or above where it began.  Those two put it back to zero: a
    [connect] that has its credential, and an interrupted signal handled
    outside test-active. *)
Theorem cursor_never_decreases ops s :
  Forall (fun o => resets o = false) ops ->
  cursor s <= cursor (run_all ops s)
  /\ (forall key i blocked, has_key key = true ->
        cursor (connect key i blocked s) = 0)
  /\ (forall env message, appModeRef s <> TEST_ACTIVE ->
        interrupted message = true -> cursor (onmessage env message s) = 0).
Proof.
  intros H. split; [|split].
  - revert s. induction H as [|o ops Ho _ IH]; intros s.
    + apply Qle_refl.
    + unfold run_all in *. simpl. eapply Qle_trans; [|apply IH].
      now apply run_cursor.
  - intros key i blocked K. now apply connect_with_key.
  - intros env message M I. rewrite (onmessage_audible _ _ _ M).
    now apply handle_interruption_effect.
Qed.

(** ** Teardown *)

Lemma cleanup_spec s :
  let s' := cleanup s in
  liveStreams (browser s')
  = match streamRef (audio s) with
    | Some st => Set_delete st (liveStreams (browser s))
    | None => liveStreams (browser s)
    end
  /\ sessions (browser s')
     = match sessionPromiseRef (session s) with
       | Some k => sessions (browser (promise_then k then_close s))
       | None => sessions (browser s)
       end
  /\ contexts (browser s')
     = close_opt (outputAudioContextRef (audio s))
         (close_opt (inputAudioContextRef (audio s)) (contexts (browser s)))
  /\ fresh (browser s') = fresh (browser s)
  /\ pendingConnects (browser s') = pendingConnects (browser s)
  /\ activeSet s' = []
  /\ stopped (log s') = (stopped (log s) ++ activeSet s)%list
  /\ streamRef (audio s') = None
  /\ inputAudioContextRef (audio s') = None
  /\ outputAudioContextRef (audio s') = None
  /\ sessionPromiseRef (session s') = None
  /\ connectionState (react s') = Disconnected
  /\ isMuted (react s') = isMuted (react s).
Proof.
  cleanup_cases s; lazy; repeat split; reflexivity.
Qed.

Lemma retained_ids_update k f l :
  (forall e, sid (f e) = sid e /\ closing (f e) = closing e) ->
  retained_ids (map (fun e => if Nat.eqb (sid e) k then f e else e) l)
  = retained_ids l.
Proof.
  intros H. unfold retained_ids.
  induction l as [|e l IH]; simpl; [reflexivity|].
  destruct (H e) as [I C].
  destruct (Nat.eqb (sid e) k); rewrite ?C;
    destruct (closing e); simpl; rewrite ?I, IH; reflexivity.
Qed.

Lemma retained_ids_given_up k f l :
  (forall e, sid (f e) = sid e /\ closing (f e) = true) ->
  retained_ids (map (fun e => if Nat.eqb (sid e) k then f e else e) l)
  = Set_delete k (retained_ids l).
Proof.
  intros H. unfold retained_ids, Set_delete.
  induction l as [|e l IH]; simpl; [reflexivity|].
  destruct (H e) as [I C].
  destruct (Nat.eqb (sid e) k) eqn:E; rewrite ?C; simpl.
  - destruct (closing e); simpl; [exact IH|].
    rewrite Nat.eqb_sym, E. simpl. exact IH.
  - destruct (closing e); simpl; [exact IH|].
    rewrite Nat.eqb_sym, E. simpl. now rewrite IH.
Qed.

Lemma existsb_is_close l : existsb is_close (l ++ [then_close]) = true.
Proof. rewrite existsb_app. simpl. apply orb_true_r. Qed.

Lemma session_then_close e :
  sid (session_then then_close e) = sid e
  /\ closing (session_then then_close e) = true.
Proof.
  unfold session_then, closing. destruct (fulfilled e) eqn:F; simpl.
  - auto.
  - rewrite F, existsb_is_close. simpl. split; [reflexivity | apply orb_true_r].
Qed.

Lemma session_then_send media e :
  sid (session_then (then_sendRealtimeInput media) e) = sid e
  /\ closing (session_then (then_sendRealtimeInput media) e) = closing e.
Proof.
  unfold session_then, closing. destruct (fulfilled e) eqn:F; simpl.
  - now rewrite F.
  - rewrite F, existsb_app. simpl. now rewrite orb_false_r.
Qed.

Lemma session_fulfilled_closing e :
  sid (session_fulfilled e) = sid e
  /\ closing (session_fulfilled e) = closing e.
Proof.
  unfold session_fulfilled, closing. destruct (fulfilled e) eqn:F; simpl.
  - now rewrite F.
  - now rewrite orb_false_r.
Qed.

Lemma session_fulfilled_open e :
  closed (session_fulfilled e) = closing e.
Proof.
  unfold session_fulfilled, closing. destruct (fulfilled e) eqn:F; simpl.
  - now rewrite orb_false_r.
  - reflexivity.
Qed.

Lemma session_fulfilled_twice e :
  session_fulfilled (session_fulfilled e) = session_fulfilled e.
Proof.
  unfold session_fulfilled. destruct (fulfilled e) eqn:F; simpl.
  - now rewrite F.
  - reflexivity.
Qed.

Lemma open_ids_fulfilled l : open_ids (map session_fulfilled l) = retained_ids l.
Proof.
  unfold open_ids, retained_ids.
  induction l as [|e l IH]; simpl; [reflexivity|].
  rewrite session_fulfilled_open.
  destruct (closing e); simpl; [exact IH|].
  now rewrite (proj1 (session_fulfilled_closing e)), IH.
Qed.

Lemma fulfil_each ks s :
  sessions (browser (fold_left (fun s k => session_fulfils k s) ks s))
  = map (fun e => if existsb (Nat.eqb (sid e)) ks then session_fulfilled e else e)
      (sessions (browser s)).
Proof.
  revert s. induction ks as [|k ks IH]; intros s; simpl.
  - symmetry. apply map_id.
  - rewrite IH.
    destruct (session_fulfils_frame k s)
      as (_ & _ & _ & _ & _ & _ & _ & _ & _ & _ & S & _).
    rewrite S, map_map. apply map_ext. intros e.
    destruct (Nat.eqb (sid e) k) eqn:E.
    + rewrite (proj1 (session_fulfilled_closing e)), session_fulfilled_twice.
      now destruct (existsb _ ks).
    + reflexivity.
Qed.

(** Once every promise has fulfilled, the open sessions are those the hook
    had not given up. *)
Lemma settle_spec s :
  sessions (browser (settle s)) = map session_fulfilled (sessions (browser s))
  /\ openSessions (settle s) = retainedSessions s.
Proof.
  assert (E : sessions (browser (settle s))
              = map session_fulfilled (sessions (browser s))).
  { unfold settle. rewrite fulfil_each. apply map_ext_in. intros e I.
    assert (X : existsb (Nat.eqb (sid e)) (map sid (sessions (browser s))) = true).
    { apply existsb_exists. exists (sid e). split;
        [now apply in_map | apply Nat.eqb_refl]. }
    now rewrite X. }
  split; [exact E|].
  unfold openSessions, retainedSessions. rewrite E. apply open_ids_fulfilled.
Qed.

(** A session the hook has given up is closed, or its promise is pending
    and its close waits for it. *)
Lemma closing_spec e :
  closing e = true ->
  closed e = true \/ (fulfilled e = false /\ In then_close (reactions e)).
Proof.
  unfold closing. destruct (closed e); [now left|]. simpl.
  destruct (fulfilled e); simpl; [discriminate|].
  intros H. right. split; [reflexivity|].
  apply existsb_exists in H. destruct H as (r & I & C).
  now destruct r.
Qed.

Lemma retained_none l :
  retained_ids l = [] ->
  forall e, In e l ->
    closed e = true \/ (fulfilled e = false /\ In then_close (reactions e)).
Proof.
  unfold retained_ids. intros H e I. apply closing_spec.
  destruct (closing e) eqn:C; [reflexivity|].
  assert (X : In (sid e) (map sid (filter (fun e => negb (closing e)) l))).
  { apply in_map, filter_In. now rewrite C. }
  rewrite H in X. destruct X.
Qed.


Lemma Set_delete_In x y l : In y (Set_delete x l) <-> In y l /\ x <> y.
Proof.
  unfold Set_delete. rewrite filter_In, negb_true_iff, Nat.eqb_neq. tauto.
Qed.



Lemma Set_delete_single k : Set_delete k [k] = [].
Proof. unfold Set_delete. simpl. now rewrite Nat.eqb_refl. Qed.

Lemma retained_ids_app l1 l2 :
  retained_ids (l1 ++ l2) = (retained_ids l1 ++ retained_ids l2)%list.
Proof. unfold retained_ids. now rewrite filter_app, map_app. Qed.

Lemma open_ctx_app l1 l2 : open_ctx (l1 ++ l2) = (open_ctx l1 ++ open_ctx l2)%list.
Proof. unfold open_ctx. now rewrite filter_app, map_app. Qed.

Lemma connect_setup_spec i blocked s :
  let s' := connect_setup i blocked s in
  let f := fresh (browser s) in
  liveStreams (browser s') = liveStreams (browser s)
  /\ sessions (browser s') = sessions (browser s)
  /\ contexts (browser s')
     = (contexts (browser s)
          ++ [(f, if blocked then Suspended else Running);
              (S f, if blocked then Suspended else Running)])%list
  /\ fresh (browser s') = S (S (S (S f)))
  /\ pendingConnects (browser s')
     = (pendingConnects (browser s)
          ++ [{| c_isMuted := isMuted (react s);
                 c_systemInstructionOverride := i |}])%list
  /\ inputAudioContextRef (audio s') = Some f
  /\ outputAudioContextRef (audio s') = Some (S f)
  /\ streamRef (audio s') = streamRef (audio s)
  /\ session s' = session s
  /\ activeSet s' = activeSet s
  /\ log s' = log s.
Proof.
  destruct s as [r m a p se b l]. unfold connect_setup. simpl.
  rewrite <- app_assoc. simpl. repeat split; reflexivity.
Qed.

Lemma connect_resume_granted c rest s :
  pendingConnects (browser s) = c :: rest ->
  let s' := connect_resume Granted s in
  let f := fresh (browser s) in
  liveStreams (browser s') = (liveStreams (browser s) ++ [f])%list
  /\ sessions (browser s')
     = (sessions (browser s)
          ++ [{| sid := S f; fulfilled := false; reactions := [];
                 closed := false; s_isMuted := c_isMuted c;
                 systemInstruction := instruction_of (c_systemInstructionOverride c) |}])%list
  /\ contexts (browser s') = contexts (browser s)
  /\ pendingConnects (browser s') = rest
  /\ streamRef (audio s') = Some f
  /\ sessionPromiseRef (session s') = Some (S f)
  /\ inputAudioContextRef (audio s') = inputAudioContextRef (audio s)
  /\ outputAudioContextRef (audio s') = outputAudioContextRef (audio s)
  /\ playback s' = playback s
  /\ log s' = log s.
Proof.
  intros P. unfold connect_resume. rewrite P.
  destruct s as [r m a p se b l]. simpl. repeat split; reflexivity.
Qed.

(** C3 fails in two ways.  In test-active an interrupted signal stops
    nothing and resets nothing; outside it, a chunk that arrives after the
    signal is scheduled like any other. *)
Lemma interrupted_counterexample :
  (let s := onmessage (example_env 1) interruptedSignal
              (sync_appMode TEST_ACTIVE playing) in
   activeSet s = [8]%nat /\ stopped (log s) = [] /\ ~ cursor s == 0
   /\ modelBuffer s = "Hi")
  /\ (let s := run_messages [(example_env 1, interruptedSignal);
                             (example_env 1, audioChunk "BBBB")] playing in
      activeSet s = [9]%nat
      /\ map sch_source (started (log s)) = [8; 9]%nat
      /\ stopped (log s) = [8]%nat).
Proof.
  vm_compute. repeat split; try reflexivity. intros H. discriminate H.
Qed.

(** ** Muting *)

(** A block is dropped when the [isMuted] its handler closed over is true:
    nothing is sent and nothing else changes. *)
Lemma onaudioprocess_closure_muted p pr block s :
  find (fun e => Nat.eqb (pid e) p) (processors (browser s)) = Some pr ->
  p_isMuted pr = true ->
  onaudioprocess p block s = s.
Proof.
  intros F M. unfold onaudioprocess. now rewrite F, M.
Qed.

(** [toggleMute] changes the React state only; the handlers in place keep
    the [isMuted] they were created with. *)
Lemma toggleMute_processors s :
  processors (browser (toggleMute s)) = processors (browser s)
  /\ sessions (browser (toggleMute s)) = sessions (browser s)
  /\ isMuted (react (toggleMute s)) = negb (isMuted (react s)).
Proof. repeat split; reflexivity. Qed.

(** C2, where the code departs from it.  The hook is connected unmuted and
    then muted: the capture handler still holds the [isMuted] of the
    [connect] that installed it, so a block captured while the session is
    muted is encoded and handed to the session all the same. *)
Theorem mute_after_connect_still_sends block :
  let s := toggleMute live_session in
  isMuted (react s) = true
  /\ sent (log s) = []
  /\ sent (log (onaudioprocess 7 block s)) = [(5%nat, createBlob block)].
Proof. repeat split; reflexivity. Qed.

(** ** The missing credential *)

(** C7, where the code departs from it.  A [connect] without a credential
    surfaces the error string and acquires nothing, but leaves the
    connection state as it was: a freshly mounted hook stays
    disconnected. *)
Theorem connect_without_key_keeps_state i blocked s :
  let s' := connect None i blocked s in
  connectionState (react s') = connectionState (react s)
  /\ error (react s') = Some "API Key is missing."
  /\ browser s' = browser s
  /\ audio s' = audio s
  /\ session s' = session s
  /\ connectionState (react (connect None i blocked (initial CONVERSATION)))
     = Disconnected.
Proof. repeat split; reflexivity. Qed.

(** ** The statements at work on the example session *)

Lemma test_active_discards_audio_witness :
  let s := sync_appMode TEST_ACTIVE playing in
  let s' := onmessage (example_env 2) (audioChunk "BBBB") s in
  appModeRef s = TEST_ACTIVE
  /\ decodeCalls (log s') = ["AAAA"] /\ activeSet s' = [8]%nat.
Proof.
  intros s s'. split; [reflexivity|].
  destruct (test_active_discards_audio (example_env 2) (audioChunk "BBBB") s
              eq_refl) as (D & _ & _ & A & _).
  fold s' in D, A. rewrite D, A. split; reflexivity.
Defined.

Lemma test_active_ignores_interruption_witness :
  let s := sync_appMode TEST_ACTIVE playing in
  let s' := onmessage (example_env 2) interruptedSignal s in
  appModeRef s = TEST_ACTIVE /\ interrupted interruptedSignal = true
  /\ stopped (log s') = [] /\ activeSet s' = [8]%nat /\ modelBuffer s' = "Hi".
Proof.
  intros s s'. split; [reflexivity|]. split; [reflexivity|].
  destruct (test_active_ignores_interruption (example_env 2) interruptedSignal s
              eq_refl eq_refl) as (K & A & _ & _ & _ & M & _).
  fold s' in K, A, M. rewrite K, A, M. repeat split; reflexivity.
Defined.

Lemma interrupted_resets_playback_witness :
  let s' := onmessage (example_env 2) interruptedSignal playing in
  appModeRef playing <> TEST_ACTIVE /\ interrupted interruptedSignal = true
  /\ activeSet playing = [8]%nat
  /\ activeSet s' = [] /\ cursor s' = 0 /\ modelBuffer s' = ""
  /\ In 8%nat (stopped (log s')).
Proof.
  intros s'.
  assert (H : appModeRef playing <> TEST_ACTIVE) by discriminate.
  split; [exact H|]. split; [reflexivity|]. split; [reflexivity|].
  destruct (interrupted_resets_playback (example_env 2) interruptedSignal playing
              H eq_refl) as (A & C & M & K & _).
  fold s' in A, C, M, K. repeat split; try assumption.
  apply K. vm_compute. left. reflexivity.
Defined.

Lemma turnComplete_clears_buffers_witness :
  let s' := onmessage (example_env 2) turnCompleteSignal playing in
  turnComplete turnCompleteSignal = true
  /\ modelBuffer playing = "Hi"
  /\ userBuffer s' = "" /\ modelBuffer s' = "".
Proof.
  intros s'. split; [reflexivity|]. split; [reflexivity|].
  exact (turnComplete_clears_buffers (example_env 2) turnCompleteSignal playing
           eq_refl).
Defined.

Lemma turnComplete_emits_turn_witness :
  let ms := [(example_env 1, inputTranscriptionFragment "Hel");
             (example_env 2, inputTranscriptionFragment "lo there")] in
  Forall within_turn ms
  /\ turnComplete turnCompleteSignal = true
  /\ transcript (log (run_messages (ms ++ [(example_env 3, turnCompleteSignal)])
                        (initial CONVERSATION)))
     = [{| role := user; text := "Hello there"; timestamp := 1700000000000 |}].
Proof.
  intros ms.
  assert (H : Forall within_turn ms) by (repeat constructor).
  split; [exact H|]. split; [reflexivity|].
  destruct (turnComplete_emits_turn ms (example_env 3) turnCompleteSignal
              (initial CONVERSATION) H eq_refl) as (_ & _ & T & _).
  rewrite T. reflexivity.
Defined.


Lemma cursor_never_decreases_witness :
  let ops := [Message (example_env 1) (audioChunk "AAAA"); ToggleMute;
              Ended 8; Disconnect] in
  Forall (fun o => resets o = false) ops
  /\ cursor live_session <= cursor (run_all ops live_session).
Proof.
  intros ops.
  assert (H : Forall (fun o => resets o = false) ops) by (repeat constructor).
  split; [exact H|].
  exact (proj1 (cursor_never_decreases ops live_session H)).
Defined.

(** * Further properties *)

(** ** After teardown *)

Lemma handle_audio_without_output env m s :
  outputAudioContextRef (audio s) = None -> handle_audio env m s = s.
Proof.
  intros H. unfold handle_audio. rewrite H.
  destruct (inlineData m) as [d|]; [|reflexivity].
  now rewrite andb_false_r.
Qed.

Lemma handle_interruption_frame m s :
  let s' := handle_interruption m s in
  react s' = react s /\ appModeRef s' = appModeRef s /\ audio s' = audio s
  /\ browser s' = browser s
  /\ decodeCalls (log s') = decodeCalls (log s)
  /\ started (log s') = started (log s)
  /\ sent (log s') = sent (log s)
  /\ transcript (log s') = transcript (log s)
  /\ (activeSet s' = activeSet s \/ activeSet s' = []).
Proof.
  unfold handle_interruption. destruct (interrupted m); simpl; tauto.
Qed.

Lemma onmessage_without_output env m s :
  outputAudioContextRef (audio s) = None ->
  let s' := onmessage env m s in
  audio s' = audio s
  /\ browser s' = browser s
  /\ decodeCalls (log s') = decodeCalls (log s)
  /\ started (log s') = started (log s)
  /\ (activeSet s' = activeSet s \/ activeSet s' = []).
Proof.
  intros H. cbv zeta. rewrite onmessage_unfold.
  destruct (transcribe_frame env m s) as (_ & _ & A & P & B & D & S & _).
  destruct (AppMode_eqb (appModeRef s) TEST_ACTIVE).
  - unfold activeSet. rewrite A, P, B, D, S. tauto.
  - rewrite handle_audio_without_output by (now rewrite A).
    destruct (handle_interruption_frame m (transcribe env m s))
      as (_ & _ & A' & B' & D' & S' & _ & _ & C').
    rewrite A', B', D', S', A, B, D, S. unfold activeSet in *. rewrite <- P.
    tauto.
Qed.

Lemma cleanup_log s :
  let s' := cleanup s in
  transcript (log s') = transcript (log s)
  /\ decodeCalls (log s') = decodeCalls (log s)
  /\ started (log s') = started (log s)
  /\ sent (log s') = sent (log s)
  /\ userBuffer s' = userBuffer s
  /\ modelBuffer s' = modelBuffer s
  /\ appModeRef s' = appModeRef s
  /\ error (react s') = error (react s)
  /\ processors (browser s')
     = match scriptProcessorRef (audio s) with
       | Some p => processors (browser (processor_disconnect p s))
       | None => processors (browser s)
       end.
Proof. cleanup_cases s; lazy; repeat split; reflexivity. Qed.

Lemma cleanup_released s : released (cleanup s).
Proof. cleanup_cases s; lazy; repeat split; reflexivity. Qed.

Lemma run_messages_without_output ms s :
  outputAudioContextRef (audio s) = None ->
  activeSet s = [] ->
  let s' := run_messages ms s in
  audio s' = audio s
  /\ browser s' = browser s
  /\ decodeCalls (log s') = decodeCalls (log s)
  /\ started (log s') = started (log s)
  /\ activeSet s' = [].
Proof.
  revert s. induction ms as [|[env m] ms IH]; intros s H E; simpl; [tauto|].
  destruct (onmessage_without_output env m s H) as (A & B & D & S & C).
  assert (E' : activeSet (onmessage env m s) = [])
    by (destruct C as [C|C]; [now rewrite C | exact C]).
  assert (H' : outputAudioContextRef (audio (onmessage env m s)) = None)
    by (now rewrite A).
  destruct (IH _ H' E') as (A2 & B2 & D2 & S2 & C2).
  unfold run_messages in *. simpl.
  rewrite A2, B2, D2, S2, A, B, D, S. tauto.
Qed.

(** X1. After a teardown no message of the remote service reaches the
    loudspeaker: whatever arrives, nothing is decoded, no source is created
    or started and the active set stays empty. *)
Theorem no_playback_after_cleanup ms s :
  let s' := run_messages ms (cleanup s) in
  decodeCalls (log s') = decodeCalls (log s)
  /\ started (log s') = started (log s)
  /\ fresh (browser s') = fresh (browser s)
  /\ activeSet s' = [].
Proof.
  destruct (cleanup_released s) as (E & _ & _ & _ & _ & O & _).
  destruct (run_messages_without_output ms (cleanup s) O E)
    as (_ & B & D & S & C).
  destruct (cleanup_log s) as (_ & D' & S' & _).
  destruct (cleanup_spec s) as (_ & _ & _ & F & _).
  cbv zeta. rewrite B, D, S, C, D', S', F. tauto.
Qed.

Lemma find_disconnected p q pr l :
  find (fun e => Nat.eqb (pid e) p) l = Some pr ->
  exists pr',
    find (fun e => Nat.eqb (pid e) p)
      (map (fun e => if Nat.eqb (pid e) q
                     then {| pid := pid e; p_session := p_session e;
                             p_isMuted := p_isMuted e; p_connected := false |}
                     else e) l) = Some pr'
    /\ p_session pr' = p_session pr /\ p_isMuted pr' = p_isMuted pr.
Proof.
  induction l as [|e l IH]; simpl; [discriminate|].
  destruct (Nat.eqb (pid e) p) eqn:E.
  - intros H. injection H as <-.
    destruct (Nat.eqb (pid e) q); simpl; rewrite E; eexists; split;
      try reflexivity; auto.
  - intros H. destruct (Nat.eqb (pid e) q); simpl; rewrite E; auto.
Qed.

Lemma promise_fulfilled_then k j r s :
  existsb (fun e => Nat.eqb (sid e) k && fulfilled e)
    (map (fun e => if Nat.eqb (sid e) j then session_then r e else e)
       (sessions (browser s)))
  = promise_fulfilled k s.
Proof.
  unfold promise_fulfilled.
  induction (sessions (browser s)) as [|e l IH]; simpl; [reflexivity|].
  rewrite IH. f_equal.
  destruct (Nat.eqb (sid e) j); [|reflexivity].
  unfold session_then. destruct (fulfilled e) eqn:F; [|simpl; now rewrite F].
  destruct r; simpl; now rewrite ?F.
Qed.

(** What the capture handler does with a block when its closure is not
    muted. *)
Lemma onaudioprocess_unmuted p pr block s :
  find (fun e => Nat.eqb (pid e) p) (processors (browser s)) = Some pr ->
  p_isMuted pr = false ->
  let s' := onaudioprocess p block s in
  let pcmBlob := createBlob block in
  volumeLevel (react s')
  = Math_sqrt (fold_left (fun sum x => sum + x * x) block 0
               / inject_Z (Z.of_nat (List.length block)))
  /\ sent (log s')
     = (sent (log s)
          ++ if promise_fulfilled (p_session pr) s
             then [(p_session pr, pcmBlob)] else [])%list
  /\ sessions (browser s')
     = map (fun e => if Nat.eqb (sid e) (p_session pr)
                     then session_then (then_sendRealtimeInput pcmBlob) e else e)
         (sessions (browser s)).
Proof.
  intros F M. cbv zeta. unfold onaudioprocess. rewrite F, M.
  unfold promise_then.
  change (promise_fulfilled (p_session pr) (setVolumeLevel ?v s))
    with (promise_fulfilled (p_session pr) s).
  destruct (promise_fulfilled (p_session pr) s); simpl;
    rewrite ?app_nil_r; repeat split; reflexivity.
Qed.

(** X2. A teardown does not take the capture handler away.  It disconnects
    the processor it holds, but a block that a processor still delivers
    afterwards is handled as before when the handler's closure is not
    muted: the volume level, which the teardown had put to zero, becomes
    the root of the block's mean square again, and the block is handed to
    the handler's session when that session's promise has fulfilled. *)
Theorem capture_handler_outlives_cleanup p pr block s :
  find (fun e => Nat.eqb (pid e) p) (processors (browser s)) = Some pr ->
  p_isMuted pr = false ->
  let s' := onaudioprocess p block (cleanup s) in
  volumeLevel (react (cleanup s)) = num 0
  /\ volumeLevel (react s')
     = Math_sqrt (fold_left (fun sum x => sum + x * x) block 0
                  / inject_Z (Z.of_nat (List.length block)))
  /\ (promise_fulfilled (p_session pr) s = true ->
      sent (log s')
      = (sent (log s) ++ [(p_session pr, createBlob block)])%list).
Proof.
  intros F M. cbv zeta.
  destruct (cleanup_log s) as (_ & _ & _ & S & _ & _ & _ & _ & P).
  destruct (cleanup_spec s) as (_ & K & _).
  assert (F' : exists pr',
             find (fun e => Nat.eqb (pid e) p) (processors (browser (cleanup s)))
             = Some pr'
             /\ p_session pr' = p_session pr /\ p_isMuted pr' = p_isMuted pr).
  { rewrite P. destruct (scriptProcessorRef (audio s)) as [q|].
    - unfold processor_disconnect. simpl. now apply find_disconnected.
    - exists pr. auto. }
  destruct F' as (pr' & F' & E & M'). rewrite M in M'.
  destruct (onaudioprocess_unmuted p pr' block (cleanup s) F' M') as (V & T & _).
  assert (Q : promise_fulfilled (p_session pr) (cleanup s)
              = promise_fulfilled (p_session pr) s).
  { unfold promise_fulfilled at 1. rewrite K.
    destruct (sessionPromiseRef (session s)) as [j|]; [|reflexivity].
    destruct (promise_then_frame j then_close s)
      as (_ & _ & _ & _ & _ & _ & _ & _ & _ & _ & X & _).
    rewrite X. apply promise_fulfilled_then. }
  split; [|split].
  - cleanup_cases s; reflexivity.
  - exact V.
  - intros H. rewrite T, E, Q, H, S. reflexivity.
Qed.

(** ** A chunk that does not decode *)

(** X3. A chunk whose decode throws is dropped and nothing else: no source
    is created or started, the active set and the React state (so the
    connection state and the error shown) are as they were; the cursor is
    at the larger of its old value and the device clock; and the next
    chunk is scheduled from there like any other. *)
Theorem decode_failure_drops_chunk env m d envB mB bufB s :
  appModeRef s <> TEST_ACTIVE ->
  output_ready s ->
  inlineData m = Some d -> Js.truthy d = true ->
  decodeAudioData env d = None ->
  interrupted m = false ->
  schedulable envB mB bufB ->
  let s' := onmessage env m s in
  started (log s') = started (log s)
  /\ activeSet s' = activeSet s
  /\ fresh (browser s') = fresh (browser s)
  /\ decodeCalls (log s') = (decodeCalls (log s) ++ [d])%list
  /\ react s' = react s
  /\ cursor s' = Qmax (cursor s) (currentTime env)
  /\ started (log (onmessage envB mB s'))
     = (started (log s)
          ++ [{| sch_source := fresh (browser s);
                 sch_when := Qmax (Qmax (cursor s) (currentTime env))
                                  (currentTime envB);
                 sch_buffer := bufB |}])%list.
Proof.
  intros H [Hc Hn] D Td Dec I B. cbv zeta.
  assert (E : onmessage env m s
              = console_log "Error decoding audio"
                  (log_decode d
                     (set_nextStartTime
                        (Qmax (cursor (transcribe env m s)) (currentTime env))
                        (transcribe env m s)))).
  { rewrite (onmessage_audible _ _ _ H), (handle_interruption_skip _ _ I).
    destruct (transcribe_frame env m s) as (_ & _ & Ea & _).
    unfold handle_audio. rewrite D, Td, Ea.
    destruct (outputAudioContextRef (audio s)); [|contradiction].
    destruct (outputNodeRef (audio s)); [|contradiction].
    simpl. rewrite Dec. reflexivity. }
  destruct (transcribe_frame env m s) as (Ra & Ma & Ea & Pa & Ba & Da & Sa & _).
  assert (P1 : started (log (onmessage env m s)) = started (log s))
    by (rewrite E; simpl; exact Sa).
  assert (P2 : fresh (browser (onmessage env m s)) = fresh (browser s))
    by (rewrite E; simpl; now rewrite Ba).
  assert (P3 : cursor (onmessage env m s) = Qmax (cursor s) (currentTime env))
    by (rewrite E; unfold cursor; simpl; now rewrite Pa).
  assert (H' : appModeRef (onmessage env m s) <> TEST_ACTIVE)
    by (rewrite E; simpl; now rewrite Ma).
  assert (R' : output_ready (onmessage env m s))
    by (rewrite E; unfold output_ready; simpl; rewrite Ea; split; assumption).
  destruct (schedule_chunk envB mB bufB _ H' R' B) as (SB & _).
  rewrite SB, P1, P2, P3.
  repeat split; rewrite E; unfold activeSet; simpl;
    rewrite ?Pa, ?Da, ?Ra; reflexivity.
Qed.

Lemma Set_add_fresh x l : ~ In x l -> Set_add x l = (l ++ [x])%list.
Proof.
  induction l as [|y l IH]; simpl; intros H; [reflexivity|].
  destruct (Nat.eqb x y) eqn:E.
  - apply Nat.eqb_eq in E. subst. tauto.
  - rewrite IH; tauto.
Qed.

Lemma Set_add_NoDup x l : NoDup l -> NoDup (Set_add x l).
Proof.
  induction 1 as [|y l Hy Hl IH]; simpl.
  - constructor; [tauto | constructor].
  - destruct (Nat.eqb x y) eqn:E; [now constructor|].
    constructor; [|exact IH].
    intros H. apply Nat.eqb_neq in E.
    destruct (in_dec Nat.eq_dec x l) as [I|I].
    + assert (Set_add x l = l).
      { clear -I. induction l as [|z l IH]; [destruct I|]. simpl.
        destruct (Nat.eqb x z) eqn:Z; [reflexivity|].
        destruct I as [->|I]; [now rewrite Nat.eqb_refl in Z|].
        now rewrite IH. }
      congruence.
    + rewrite (Set_add_fresh _ _ I) in H. apply in_app_or in H.
      destruct H as [H|[H|[]]]; [contradiction | congruence].
Qed.

Lemma Set_add_elim x y l : In y (Set_add x l) -> y = x \/ In y l.
Proof.
  induction l as [|z l IH]; simpl.
  - intros [<-|[]]. now left.
  - destruct (Nat.eqb x z); simpl; [tauto|].
    intros [<-|H]; [tauto|]. destruct (IH H); tauto.
Qed.

Lemma Set_delete_NoDup x l : NoDup l -> NoDup (Set_delete x l).
Proof. apply NoDup_filter. Qed.

Lemma playback_wf_step s s' :
  playback_wf s -> playback_step s s' -> playback_wf s'.
Proof.
  intros (N & M & I & F) (Hf & [(St & A) | (sch & Hs & St & Fr & A)]);
    unfold playback_wf, scheduledSources in *.
  - rewrite St. destruct A as [A|[A|(src & A)]]; rewrite A.
    + repeat split; auto. intros x Hx. specialize (F x Hx). lia.
    + repeat split; auto; [constructor | intros x [] |].
      intros x Hx. specialize (F x Hx). lia.
    + repeat split; auto.
      * now apply Set_delete_NoDup.
      * intros x Hx. apply Set_delete_In in Hx. now apply I.
      * intros x Hx. specialize (F x Hx). lia.
  - rewrite St, map_app, Fr. simpl. rewrite Hs.
    assert (Nf : ~ In (fresh (browser s)) (map sch_source (started (log s)))).
    { intros Hx. specialize (F _ Hx). lia. }
    assert (M' : NoDup (map sch_source (started (log s)) ++ [fresh (browser s)])).
    { apply NoDup_app; [exact M | constructor; [intros [] | constructor] |].
      intros x Hx [<-|[]]. contradiction. }
    assert (F' : forall src, In src (map sch_source (started (log s))
                                       ++ [fresh (browser s)]) ->
                             (src < S (fresh (browser s)))%nat).
    { intros x Hx. apply in_app_or in Hx. destruct Hx as [Hx|[<-|[]]];
        [specialize (F x Hx)|]; lia. }
    destruct A as [A|A]; rewrite A; repeat split; auto.
    + now apply Set_add_NoDup.
    + intros x Hx. apply in_or_app. apply Set_add_elim in Hx.
      destruct Hx as [->|Hx]; [right; now left | left; now apply I].
    + constructor.
    + intros x [].
Qed.

Lemma handle_audio_step env m s :
  let s' := handle_audio env m s in
  liveStreams (browser s') = liveStreams (browser s)
  /\ sessions (browser s') = sessions (browser s)
  /\ processors (browser s') = processors (browser s)
  /\ contexts (browser s') = contexts (browser s)
  /\ pendingConnects (browser s') = pendingConnects (browser s)
  /\ playback_step s s'.
Proof.
  unfold handle_audio, playback_step, activeSet.
  destruct (inlineData m) as [d|];
    [|do 5 (split; [reflexivity|]); split; [lia | left; auto]].
  destruct (Js.truthy d && Js.present (outputAudioContextRef (audio s))
            && Js.present (outputNodeRef (audio s)));
    [|do 5 (split; [reflexivity|]); split; [lia | left; auto]].
  simpl. destruct (decodeAudioData env d) as [b|]; simpl.
  - do 5 (split; [reflexivity|]). split; [lia|]. right.
    exists {| sch_source := fresh (browser s);
              sch_when := Qmax (nextStartTimeRef (playback s)) (currentTime env);
              sch_buffer := b |}.
    repeat split. now left.
  - do 5 (split; [reflexivity|]). split; [lia|]. left. auto.
Qed.

Lemma playback_step_refl s : playback_step s s.
Proof. split; [lia | left; auto]. Qed.

Lemma playback_step_same s s' :
  started (log s') = started (log s) ->
  (fresh (browser s) <= fresh (browser s'))%nat ->
  activeSet s' = activeSet s \/ activeSet s' = [] ->
  playback_step s s'.
Proof. intros A B C. split; [exact B | left; split; [exact A | tauto]]. Qed.

Lemma onmessage_playback_step env m s : playback_step s (onmessage env m s).
Proof.
  rewrite onmessage_unfold.
  destruct (transcribe_frame env m s) as (_ & _ & _ & P & B & _ & S & _).
  destruct (AppMode_eqb (appModeRef s) TEST_ACTIVE).
  - apply playback_step_same; unfold activeSet; rewrite ?P, ?B, ?S; auto.
  - set (t := transcribe env m s) in *.
    destruct (handle_audio_step env m t) as (_ & _ & _ & _ & _ & Hf & Hs).
    destruct (handle_interruption_frame m (handle_audio env m t))
      as (_ & _ & _ & B' & _ & S' & _ & _ & A').
    unfold playback_step, activeSet in *. rewrite B', S', <- B, <- S, <- P.
    split; [exact Hf|].
    destruct Hs as [(St & A) | (sch & Hc & St & Fr & A)].
    + left. split; [exact St|]. destruct A' as [A'|A']; rewrite A'; tauto.
    + right. exists sch. repeat split; auto.
      destruct A' as [A'|A']; rewrite A'; tauto.
Qed.

Lemma connect_setup_step i blocked s :
  let s' := connect_setup i blocked s in
  started (log s') = started (log s)
  /\ (fresh (browser s) <= fresh (browser s'))%nat
  /\ activeSet s' = activeSet s.
Proof.
  destruct (connect_setup_spec i blocked s)
    as (_ & _ & _ & F & _ & _ & _ & _ & _ & A & L).
  cbv zeta. rewrite F, A, L. repeat split. lia.
Qed.

Lemma cleanup_step s :
  let s' := cleanup s in
  started (log s') = started (log s)
  /\ fresh (browser s') = fresh (browser s)
  /\ activeSet s' = [].
Proof.
  destruct (cleanup_spec s) as (_ & _ & _ & F & _ & A & _).
  destruct (cleanup_log s) as (_ & _ & S & _). auto.
Qed.

Lemma onopen_step k s :
  let s' := onopen k s in
  started (log s') = started (log s)
  /\ (fresh (browser s) <= fresh (browser s'))%nat
  /\ liveStreams (browser s') = liveStreams (browser s)
  /\ sessions (browser s') = sessions (browser s)
  /\ pendingConnects (browser s') = pendingConnects (browser s)
  /\ streamRef (audio s') = streamRef (audio s)
  /\ sessionPromiseRef (session s') = sessionPromiseRef (session s).
Proof.
  unfold onopen.
  destruct (find _ (sessions (browser s))); [|simpl; repeat split; auto].
  repeat match goal with
         | |- context [match ?x with _ => _ end] => destruct x; simpl
         end; repeat split; auto.
Qed.

Lemma run_playback_step o s : playback_step s (run o s).
Proof.
  destruct o; simpl.
  - (* connect *)
    unfold connect. destruct (negb (has_key API_KEY));
      [apply playback_step_same; simpl; auto|].
    destruct (Js.present (sessionPromiseRef (session s))).
    + destruct (connect_setup_step systemInstructionOverride autoplayBlocked
                  (cleanup s)) as (S & F & A).
      destruct (cleanup_step s) as (S' & F' & A').
      apply playback_step_same; rewrite ?S, ?A, ?S', ?A'; auto. lia.
    + destruct (connect_setup_step systemInstructionOverride autoplayBlocked s)
        as (S & F & A).
      apply playback_step_same; auto.
  - (* getUserMedia settles *)
    unfold connect_resume. destruct (pendingConnects (browser s));
      [apply playback_step_refl|].
    destruct r; apply playback_step_same; simpl; auto.
  - (* the session promise fulfils *)
    destruct (session_fulfils_frame k s)
      as (_ & _ & _ & P & _ & Fr & _ & _ & _ & _ & _ & _ & _ & St & _).
    apply playback_step_same; unfold activeSet; rewrite ?P, ?Fr, ?St; auto.
  - destruct (onopen_step k s) as (S & F & _).
    apply playback_step_same; auto. unfold activeSet.
    rewrite onopen_playback. auto.
  - apply onmessage_playback_step.
  - apply playback_step_same; simpl; auto.
  - apply playback_step_same; simpl; auto.
  - unfold onaudioprocess.
    destruct (find _ (processors (browser s))) as [pr|];
      [|apply playback_step_refl].
    destruct (p_isMuted pr); [apply playback_step_refl|].
    destruct (promise_then_frame (p_session pr)
                (then_sendRealtimeInput (createBlob inputData))
                (setVolumeLevel
                   (Math_sqrt
                      (fold_left (fun sum x => sum + x * x) inputData 0
                       / inject_Z (Z.of_nat (Datatypes.length inputData)))) s))
      as (_ & _ & _ & P & _ & Fr & _ & _ & _ & _ & _ & _ & _ & St & _).
    apply playback_step_same; unfold activeSet; rewrite ?P, ?Fr, ?St; simpl; auto.
  - split; [simpl; lia|]. left. split; [reflexivity|].
    right. right. exists source. reflexivity.
  - destruct (cleanup_step s) as (S & F & A). unfold disconnect.
    apply playback_step_same; auto. lia.
  - apply playback_step_same; simpl; auto.
  - apply playback_step_same; simpl; auto.
Qed.

Lemma initial_playback_wf appMode : playback_wf (initial appMode).
Proof.
  repeat split; try constructor; intros src [].
Qed.

(** X4. In every state the hook can reach, the active playback set holds no
    source twice, every source in it was started, and no source was
    started twice. *)
Theorem active_set_well_formed ops appMode :
  let s := run_all ops (initial appMode) in
  NoDup (activeSet s)
  /\ NoDup (scheduledSources s)
  /\ (forall src, In src (activeSet s) -> In src (scheduledSources s)).
Proof.
  cbv zeta.
  assert (W : playback_wf (run_all ops (initial appMode))).
  { generalize (initial_playback_wf appMode).
    generalize (initial appMode) as s. unfold run_all.
    induction ops as [|o ops IH]; intros s W; simpl; [exact W|].
    apply IH. eapply playback_wf_step; [exact W | apply run_playback_step]. }
  destruct W as (A & B & C & _). auto.
Qed.

Lemma playback_wf_reached ops appMode : playback_wf (run_all ops (initial appMode)).
Proof.
  generalize (initial_playback_wf appMode).
  generalize (initial appMode) as s. unfold run_all.
  induction ops as [|o ops IH]; intros s W; simpl; [exact W|].
  apply IH. eapply playback_wf_step; [exact W | apply run_playback_step].
Qed.

Lemma Set_delete_last x l : ~ In x l -> Set_delete x (l ++ [x]) = l.
Proof.
  intros H. unfold Set_delete. rewrite filter_app. simpl.
  rewrite Nat.eqb_refl. simpl. rewrite app_nil_r.
  induction l as [|y l IH]; simpl; [reflexivity|].
  destruct (Nat.eqb x y) eqn:E.
  - apply Nat.eqb_eq in E. subst. simpl in H. tauto.
  - simpl. rewrite IH; [reflexivity|]. simpl in H. tauto.
Qed.

(** X5. A chunk that is scheduled joins the end of the active set under a
    source of its own, and leaves it again when it has played to its end:
    the 'ended' event of a source removes that source and no other. *)
Theorem natural_completion ops appMode env m buf :
  let s := run_all ops (initial appMode) in
  appModeRef s <> TEST_ACTIVE ->
  output_ready s ->
  schedulable env m buf ->
  let s' := onmessage env m s in
  let source := fresh (browser s) in
  activeSet s' = (activeSet s ++ [source])%list
  /\ activeSet (onended source s') = activeSet s
  /\ (forall other x, In x (activeSet (onended other s'))
                      <-> In x (activeSet s') /\ x <> other).
Proof.
  intros s H R S s' source.
  destruct (schedule_chunk env m buf s H R S) as (_ & _ & A & _).
  fold s' in A. fold source in A.
  destruct (playback_wf_reached ops appMode) as (_ & _ & I & F).
  fold s in I, F.
  assert (N : ~ In source (activeSet s)).
  { intros Hx. specialize (F _ (I _ Hx)). unfold source in F. lia. }
  rewrite (Set_add_fresh _ _ N) in A.
  split; [exact A|]. split.
  - unfold onended, activeSet in *. simpl. rewrite A. now apply Set_delete_last.
  - intros other x. unfold onended, activeSet. simpl.
    rewrite Set_delete_In. intuition congruence.
Qed.

Lemma single_session_lifecycle s s' :
  lifecycle s' = lifecycle s -> single_session s -> single_session s'.
Proof.
  unfold lifecycle, single_session, tracked.
  intros E. injection E as -> -> -> -> ->. tauto.
Qed.

Lemma transcribe_sessionPromise env m s :
  sessionPromiseRef (session (transcribe env m s)) = sessionPromiseRef (session s).
Proof.
  unfold transcribe, handle_turnComplete, handle_transcriptions.
  destruct (outputTranscription m), (inputTranscription m),
    (turnComplete m); simpl; try reflexivity;
    repeat match goal with
           | |- context [if ?x then _ else _] => destruct x; simpl
           end; reflexivity.
Qed.

Lemma onmessage_lifecycle env m s :
  lifecycle (onmessage env m s) = lifecycle s.
Proof.
  rewrite onmessage_unfold. unfold lifecycle, retainedSessions.
  destruct (transcribe_frame env m s) as (_ & _ & A & _ & B & _).
  pose proof (transcribe_sessionPromise env m s) as K.
  destruct (AppMode_eqb (appModeRef s) TEST_ACTIVE).
  - now rewrite A, B, K.
  - set (t := transcribe env m s) in *.
    destruct (handle_audio_step env m t) as (L & S & _ & _ & P & _).
    destruct (handle_audio_frame env m t) as (_ & _ & A' & S' & _).
    destruct (handle_interruption_frame m (handle_audio env m t))
      as (_ & _ & A2 & B2 & _).
    assert (K2 : sessionPromiseRef (session (handle_interruption m (handle_audio env m t)))
                 = sessionPromiseRef (session (handle_audio env m t)))
      by (unfold handle_interruption; destruct (interrupted m); reflexivity).
    now rewrite B2, A2, K2, L, S, P, A', S', A, B, K.
Qed.

Lemma promise_then_send_lifecycle k media s :
  lifecycle (promise_then k (then_sendRealtimeInput media) s) = lifecycle s.
Proof.
  destruct (promise_then_frame k (then_sendRealtimeInput media) s)
    as (_ & _ & A & _ & K & _ & _ & L & _ & P & S & _).
  unfold lifecycle, retainedSessions. rewrite A, K, L, P, S.
  now rewrite (retained_ids_update _ _ _ (session_then_send media)).
Qed.

Lemma session_fulfils_lifecycle k s :
  lifecycle (session_fulfils k s) = lifecycle s.
Proof.
  destruct (session_fulfils_frame k s)
    as (_ & _ & A & _ & K & _ & _ & L & _ & P & S & _).
  unfold lifecycle, retainedSessions. rewrite A, K, L, P, S.
  now rewrite (retained_ids_update _ _ _ session_fulfilled_closing).
Qed.

Lemma run_lifecycle o s :
  match o with
  | Connect _ _ _ | UserMedia _ | Disconnect => True
  | _ => lifecycle (run o s) = lifecycle s
  end.
Proof.
  destruct o; simpl; try exact I; try reflexivity.
  - apply session_fulfils_lifecycle.
  - destruct (onopen_step k s) as (_ & _ & L & S & P & T & K).
    unfold lifecycle, retainedSessions. now rewrite L, S, P, T, K.
  - apply onmessage_lifecycle.
  - unfold onaudioprocess.
    destruct (find _ (processors (browser s))) as [pr|]; [|reflexivity].
    destruct (p_isMuted pr); [reflexivity|].
    now rewrite promise_then_send_lifecycle.
Qed.

Lemma single_session_torn_down s :
  single_session s ->
  let s' := cleanup s in
  liveStreams (browser s') = [] /\ retainedSessions s' = []
  /\ streamRef (audio s') = None /\ sessionPromiseRef (session s') = None
  /\ pendingConnects (browser s') = pendingConnects (browser s).
Proof.
  intros ((TL & TS) & N & _). cbv zeta.
  destruct (cleanup_spec s) as (CL & CS & _ & _ & CP & _ & _ & ST & _ & _ & K & _).
  rewrite CP, ST, K. repeat split.
  - rewrite CL, TL. destruct (streamRef (audio s)); simpl;
      [apply Set_delete_single | reflexivity].
  - unfold retainedSessions in *. rewrite CS.
    destruct (sessionPromiseRef (session s)) as [k|] eqn:E.
    + destruct (promise_then_frame k then_close s)
        as (_ & _ & _ & _ & _ & _ & _ & _ & _ & _ & X & _).
      rewrite X, (retained_ids_given_up _ _ _ session_then_close), TS.
      apply Set_delete_single.
    + exact TS.
Qed.

Lemma single_session_idle s :
  single_session s ->
  sessionPromiseRef (session s) = None ->
  liveStreams (browser s) = [] /\ retainedSessions s = []
  /\ streamRef (audio s) = None.
Proof.
  intros ((TL & TS) & N & _) K. specialize (N K).
  rewrite TL, TS, N, K. auto.
Qed.

Lemma single_session_run o s :
  single_session s -> admissible o s -> single_session (run o s).
Proof.
  intros W A. pose proof (run_lifecycle o s) as Q.
  destruct o; simpl in *;
    try (apply (single_session_lifecycle _ _ Q W)).
  - (* connect *)
    unfold connect. destruct (negb (has_key API_KEY));
      [apply (single_session_lifecycle s); [reflexivity | exact W]|].
    set (s0 := if Js.present (sessionPromiseRef (session s)) then cleanup s else s).
    assert (Z : liveStreams (browser s0) = [] /\ retainedSessions s0 = []
                /\ streamRef (audio s0) = None
                /\ sessionPromiseRef (session s0) = None
                /\ pendingConnects (browser s0) = []).
    { unfold s0. destruct (sessionPromiseRef (session s)) eqn:E;
        unfold Js.present.
      - destruct (single_session_torn_down s W) as (a & b & c & d & e).
        rewrite e. auto.
      - destruct (single_session_idle s W E) as (a & b & c). auto. }
    destruct Z as (ZL & ZS & ZT & ZK & ZP).
    destruct (connect_setup_spec systemInstructionOverride autoplayBlocked s0)
      as (SL & SS & _ & _ & SP & _ & _ & ST & SE & _).
    unfold single_session, tracked, retainedSessions in *.
    rewrite SL, SS, SP, ST, SE, ZL, ZS, ZT, ZK, ZP. simpl.
    repeat split; auto.
  - (* getUserMedia settles *)
    destruct W as ((TL & TS) & N & P & Len).
    destruct (pendingConnects (browser s)) as [|c rest] eqn:E.
    + unfold connect_resume. rewrite E.
      unfold single_session, tracked. rewrite E. repeat split; auto.
    + assert (K : sessionPromiseRef (session s) = None) by (apply P; discriminate).
      assert (R : rest = []) by (destruct rest; [reflexivity | simpl in Len; lia]).
      subst rest. specialize (N K).
      destruct r.
      * destruct (connect_resume_granted _ _ s E)
          as (RL & RS & _ & RP & RT & RK & _).
        unfold single_session, tracked, retainedSessions in *.
        rewrite RL, RS, RP, RT, RK, retained_ids_app, TL, TS, N, K. simpl.
        repeat split; auto; intros H; first [discriminate H | now elim H].
      * unfold connect_resume. rewrite E.
        unfold single_session, tracked, retainedSessions. simpl.
        rewrite TL, N, K. fold (retainedSessions s). rewrite TS, K.
        repeat split; auto.
  - (* disconnect *)
    destruct (single_session_torn_down s W) as (a & b & c & d & e).
    destruct W as (_ & _ & P & Len).
    unfold disconnect, single_session, tracked. rewrite a, b, c, d, e.
    repeat split; auto.
Qed.

Lemma reachable_single_session s : reachable s -> single_session s.
Proof.
  induction 1 as [appMode | o s _ IH A].
  - unfold single_session, tracked. simpl. repeat split; auto.
  - now apply single_session_run.
Qed.

(** X6. As long as no [connect] is made while another still waits for the
    microphone, the hook never has more than one live media stream, and
    never more than one remote session that it has not given up; these
    are the ones its refs point to.  Every other session is closed, or
    its promise is still pending and its close waits for it: once the
    session promises have fulfilled, the only session open is the one in
    the ref. *)
Theorem one_session_at_a_time s :
  reachable s ->
  (List.length (liveStreams (browser s)) <= 1)%nat
  /\ (List.length (retainedSessions s) <= 1)%nat
  /\ liveStreams (browser s) = opt_list (streamRef (audio s))
  /\ retainedSessions s = opt_list (sessionPromiseRef (session s))
  /\ (forall e, In e (sessions (browser s)) ->
        sessionPromiseRef (session s) <> Some (sid e) ->
        closed e = true \/ (fulfilled e = false /\ In then_close (reactions e)))
  /\ openSessions (settle s) = opt_list (sessionPromiseRef (session s)).
Proof.
  intros R. destruct (reachable_single_session s R) as ((TL & TS) & _).
  rewrite (proj2 (settle_spec s)), TL, TS.
  split; [|split; [|split; [|split; [|split]]]]; try reflexivity.
  - destruct (streamRef (audio s)); simpl; auto.
  - destruct (sessionPromiseRef (session s)); simpl; auto.
  - intros e I N. apply closing_spec.
    destruct (closing e) eqn:C; [reflexivity|].
    assert (X : In (sid e) (retainedSessions s)).
    { unfold retainedSessions, retained_ids.
      apply in_map, filter_In. now rewrite C. }
    rewrite TS in X. destruct (sessionPromiseRef (session s)); simpl in X.
    + destruct X as [X|[]]. now subst.
    + destruct X.
Qed.

(** ** Reconnection *)



Lemma trimEnd_keeps c r :
  Js.isWhiteSpace c = false -> Js.truthy (Js.trimEnd (String c r)) = true.
Proof.
  intros H. simpl. destruct (Js.trimEnd r); [now rewrite H | reflexivity].
Qed.

Lemma trim_truthy s : Js.truthy (Js.trim s) = negb (blank s).
Proof.
  unfold Js.trim, blank. induction s as [|c r IH]; [reflexivity|].
  simpl Js.trimStart. simpl list_ascii_of_string. simpl forallb.
  destruct (Js.isWhiteSpace c) eqn:E; [exact IH|].
  now rewrite trimEnd_keeps.
Qed.

Lemma emitted_length env u mo :
  List.length (emitted env u mo)
  = ((if blank u then 0 else 1) + (if blank mo then 0 else 1))%nat.
Proof.
  unfold emitted. rewrite !trim_truthy.
  destruct (blank u), (blank mo); reflexivity.
Qed.

(** X7. A turn-complete signal emits one ChatMessage for each buffer that
    holds a character other than white space, and none for a buffer that
    is empty or all white space; so a turn of silence leaves the
    transcript as it was. *)
Theorem blank_turn_emits_nothing env m s :
  turnComplete m = true ->
  let userText := userBuffer s ++ fragment (inputTranscription m) in
  let modelText := modelBuffer s ++ fragment (outputTranscription m) in
  let s' := onmessage env m s in
  List.length (transcript (log s'))
  = (List.length (transcript (log s))
     + (if blank userText then 0 else 1) + (if blank modelText then 0 else 1))%nat
  /\ (transcript (log s') = transcript (log s)
      <-> blank userText = true /\ blank modelText = true).
Proof.
  intros T userText modelText s'. unfold s'.
  rewrite (onmessage_turnComplete _ _ _ T). fold userText modelText.
  pose proof (emitted_length env userText modelText) as L.
  split.
  - rewrite length_app, L. lia.
  - split.
    + intros E. apply (f_equal (@List.length _)) in E.
      rewrite length_app, L in E.
      destruct (blank userText), (blank modelText); simpl in E; auto; lia.
    + intros [U M]. rewrite U, M in L.
      destruct (emitted env userText modelText); [now rewrite app_nil_r|].
      discriminate L.
Qed.

(** ** The volume meter *)

Lemma sum_squares_bounds l a :
  Forall (fun x => -1 <= x /\ x <= 1) l ->
  a <= fold_left (fun sum x => sum + x * x) l a
  /\ fold_left (fun sum x => sum + x * x) l a
     <= a + inject_Z (Z.of_nat (List.length l)).
Proof.
  intros H. revert a. induction H as [|x l [Hl Hu] _ IH]; intros a.
  - simpl. unfold inject_Z. split; lra.
  - cbn [fold_left]. destruct (IH (a + x * x)) as [A B].
    assert (0 <= x * x) by nra.
    assert (x * x <= 1) by nra.
    replace (List.length (x :: l)) with (S (List.length l)) by reflexivity.
    rewrite Nat2Z.inj_succ. unfold Z.succ. rewrite inject_Z_plus.
    change (inject_Z 1) with 1.
    set (n := inject_Z (Z.of_nat (List.length l))) in *.
    set (f := fold_left (fun sum y => sum + y * y) l (a + x * x)) in *.
    set (xx := x * x) in *.
    split; lra.
Qed.

Lemma sum_squares_eq l a :
  fold_left (fun sum x => sum + x * x) l a
  == a + fold_right Qplus 0 (map (fun x => x * x) l).
Proof.
  revert a. induction l as [|x l IH]; intros a; simpl.
  - ring.
  - rewrite IH. ring.
Qed.

Lemma outbox_later k media l :
  (exists e, In e l /\ sid e = k /\ fulfilled e = false) ->
  In media
    (outbox k
       (map (fun e => if Nat.eqb (sid e) k
                      then session_then (then_sendRealtimeInput media) e else e) l)).
Proof.
  intros (e & I & E & F). unfold outbox. apply in_flat_map.
  exists (session_then (then_sendRealtimeInput media) e). split.
  - apply in_map_iff. exists e. split; [|exact I].
    now rewrite E, Nat.eqb_refl.
  - unfold session_then. rewrite F. simpl. rewrite E, Nat.eqb_refl, F. simpl.
    apply in_flat_map. exists (then_sendRealtimeInput media). split.
    + apply in_or_app. right. now left.
    + now left.
Qed.

(** X8. A block captured by a processor whose closure is not muted sets
    the volume level to the root of the block's mean square; for samples
    between -1 and 1 that mean lies between 0 and 1.  When the promise of
    that processor's session has fulfilled, the block is handed to the
    session, once and at once.  Otherwise nothing is sent yet, and the
    block is among those sent when the promise of that session
    fulfils. *)
Theorem capture_sends_and_meters p pr block s :
  find (fun e => Nat.eqb (pid e) p) (processors (browser s)) = Some pr ->
  p_isMuted pr = false ->
  block <> [] ->
  Forall (fun x => -1 <= x /\ x <= 1) block ->
  let s' := onaudioprocess p block s in
  let k := p_session pr in
  (exists q, volumeLevel (react s') = Math_sqrt q /\ q == mean_square block)
  /\ 0 <= mean_square block /\ mean_square block <= 1
  /\ (promise_fulfilled k s = true ->
      sent (log s') = (sent (log s) ++ [(k, createBlob block)])%list)
  /\ (promise_fulfilled k s = false ->
      sent (log s') = sent (log s)
      /\ ((exists e, In e (sessions (browser s)) /\ sid e = k) ->
          In (k, createBlob block) (sent (log (session_fulfils k s'))))).
Proof.
  intros F M N B. cbv zeta.
  destruct (onaudioprocess_unmuted p pr block s F M) as (V & T & S).
  assert (P : 0 < inject_Z (Z.of_nat (List.length block))).
  { destruct block; [contradiction|]. unfold Qlt. simpl. lia. }
  assert (E : fold_left (fun sum x => sum + x * x) block 0
              / inject_Z (Z.of_nat (List.length block))
              == mean_square block).
  { unfold mean_square. rewrite sum_squares_eq. field.
    intros Z. rewrite Z in P. discriminate P. }
  destruct (sum_squares_bounds block 0 B) as [L U].
  split; [|split; [|split; [|split]]].
  - eexists. split; [exact V | exact E].
  - rewrite <- E. apply Qle_shift_div_l; [exact P | lra].
  - rewrite <- E. apply Qle_shift_div_r; [exact P | lra].
  - intros H. now rewrite T, H.
  - intros H. split; [rewrite T, H; apply app_nil_r|].
    intros (e & I & Ek).
    assert (Fe : fulfilled e = false).
    { destruct (fulfilled e) eqn:Fe; [|reflexivity].
      unfold promise_fulfilled in H.
      assert (X : existsb (fun e => Nat.eqb (sid e) (p_session pr) && fulfilled e)
                    (sessions (browser s)) = true).
      { apply existsb_exists. exists e. split; [exact I|].
        now rewrite Ek, Nat.eqb_refl, Fe. }
      rewrite X in H. discriminate H. }
    rewrite session_fulfils_eq. simpl. apply in_or_app. right.
    apply in_map. rewrite S. apply outbox_later. exists e. auto.
Qed.

(** ** [connect], from the call to the session *)

Lemma connect_idle key i blocked s :
  has_key key = true ->
  single_session s ->
  pendingConnects (browser s) = [] ->
  let s1 := connect key i blocked s in
  liveStreams (browser s1) = [] /\ retainedSessions s1 = []
  /\ streamRef (audio s1) = None /\ sessionPromiseRef (session s1) = None
  /\ pendingConnects (browser s1)
     = [{| c_isMuted := isMuted (react s); c_systemInstructionOverride := i |}]
  /\ fresh (browser s1) = S (S (S (S (fresh (browser s)))))
  /\ (exists s0, s1 = connect_setup i blocked s0
                 /\ fresh (browser s0) = fresh (browser s)
                 /\ log s1 = log s0
                 /\ started (log s0) = started (log s)).
Proof.
  intros K W P. cbv zeta. unfold connect. rewrite K. cbn [negb].
  set (s0 := if Js.present (sessionPromiseRef (session s)) then cleanup s else s).
  assert (Z : liveStreams (browser s0) = [] /\ retainedSessions s0 = []
              /\ streamRef (audio s0) = None
              /\ sessionPromiseRef (session s0) = None
              /\ pendingConnects (browser s0) = []
              /\ fresh (browser s0) = fresh (browser s)
              /\ isMuted (react s0) = isMuted (react s)
              /\ started (log s0) = started (log s)).
  { unfold s0. destruct (sessionPromiseRef (session s)) eqn:E;
      unfold Js.present.
    - destruct (single_session_torn_down s W) as (a & b & c & d & e).
      destruct (cleanup_spec s)
        as (_ & _ & _ & F & _ & _ & _ & _ & _ & _ & _ & _ & M).
      destruct (cleanup_log s) as (_ & _ & S & _).
      rewrite e. auto 10.
    - destruct (single_session_idle s W E) as (a & b & c). auto 10. }
  destruct Z as (ZL & ZS & ZT & ZK & ZP & ZF & ZM & ZG).
  destruct (connect_setup_spec i blocked s0)
    as (SL & SS & _ & SF & SP & _ & _ & ST & SE & _ & SG).
  unfold retainedSessions in *.
  rewrite SL, SS, SF, SP, ST, SE, ZL, ZS, ZT, ZK, ZP, ZF, ZM.
  repeat split; auto. exists s0. auto.
Qed.

(** X9. In a state reached without a [connect] made while another still
    waited for the microphone, and with none waiting now: the session a
    [connect] opens is configured with the instruction override when that
    is a non-empty string and with the default AURA instruction
    otherwise, and its callbacks hold the [isMuted] of the call.  Its
    promise is pending and nothing waits on it yet; no session opened
    before is retained: each is closed, or its promise is still pending
    and its close waits for it. *)
Theorem connect_opens_configured_session key i blocked s :
  reachable s ->
  has_key key = true ->
  pendingConnects (browser s) = [] ->
  let s2 := connect_resume Granted (connect key i blocked s) in
  exists earlier sess,
    sessions (browser s2) = (earlier ++ [sess])%list
    /\ retained_ids earlier = []
    /\ (forall e, In e earlier ->
          closed e = true \/ (fulfilled e = false /\ In then_close (reactions e)))
    /\ sessionPromiseRef (session s2) = Some (sid sess)
    /\ closed sess = false /\ fulfilled sess = false /\ reactions sess = []
    /\ s_isMuted sess = isMuted (react s)
    /\ systemInstruction sess
       = match i with
         | Some text => if Js.truthy text then text else DEFAULT_SYSTEM_INSTRUCTION
         | None => DEFAULT_SYSTEM_INSTRUCTION
         end.
Proof.
  intros R K P s2.
  pose proof (reachable_single_session s R) as W.
  destruct (connect_idle key i blocked s K W P) as (L & O & _ & _ & Q & F & _).
  destruct (connect_resume_granted _ _ _ Q) as (_ & RS & _ & _ & _ & RK & _).
  fold s2 in RS, RK.
  eexists. eexists. split; [exact RS|]. split; [exact O|].
  split; [exact (retained_none _ O)|]. repeat split; auto.
Qed.

(** X10. In a state reached without a [connect] made while another still
    waited for the microphone, and with none waiting now: when the
    microphone is refused the call ends in the error state with the
    error's message (or [Failed to connect] when it has none).  No media
    stream is live and no remote session is retained afterwards, so none
    is open once the session promises have fulfilled, while the two audio
    contexts the call created stay open. *)
Theorem microphone_refused key i blocked message s :
  reachable s ->
  has_key key = true ->
  pendingConnects (browser s) = [] ->
  let s1 := connect key i blocked s in
  let s2 := connect_resume (Rejected message) s1 in
  connectionState (react s2) = Error
  /\ error (react s2) = Some (match message with
                              | Some text => text
                              | None => "Failed to connect"
                              end)
  /\ liveStreams (browser s2) = []
  /\ retainedSessions s2 = []
  /\ openSessions (settle s2) = []
  /\ streamRef (audio s2) = None
  /\ sessionPromiseRef (session s2) = None
  /\ pendingConnects (browser s2) = []
  /\ openContexts s2 = openContexts s1
  /\ In (fresh (browser s)) (openContexts s2)
  /\ In (S (fresh (browser s))) (openContexts s2).
Proof.
  intros R K P s1 s2.
  pose proof (reachable_single_session s R) as W.
  destruct (connect_idle key i blocked s K W P)
    as (L & O & T & N & Q & F & (s0 & E & F0 & _)).
  fold s1 in L, O, T, N, Q, F, E.
  assert (E2 : s2 = setError (Some (error_text message))
                      (setConnectionState Error
                         (console_log (error_text message)
                            (set_pendingConnects [] s1)))).
  { unfold s2, connect_resume. rewrite Q. reflexivity. }
  assert (C : contexts (browser s2) = contexts (browser s1))
    by (rewrite E2; reflexivity).
  destruct (connect_setup_spec i blocked s0) as (_ & _ & SC & _).
  rewrite <- E, F0 in SC.
  assert (X : forall c, In c [fresh (browser s); S (fresh (browser s))] ->
                        In c (openContexts s2)).
  { intros c Hc. unfold openContexts. rewrite C, SC, open_ctx_app.
    apply in_or_app. right. destruct blocked; exact Hc. }
  assert (A1 : connectionState (react s2) = Error) by (now rewrite E2).
  assert (A2 : error (react s2) = Some (error_text message)) by (now rewrite E2).
  assert (A3 : liveStreams (browser s2) = []) by (rewrite E2; exact L).
  assert (A4 : retainedSessions s2 = []) by (rewrite E2; exact O).
  assert (A4' : openSessions (settle s2) = [])
    by (now rewrite (proj2 (settle_spec s2))).
  assert (A5 : streamRef (audio s2) = None) by (rewrite E2; exact T).
  assert (A6 : sessionPromiseRef (session s2) = None) by (rewrite E2; exact N).
  assert (A7 : pendingConnects (browser s2) = []) by (now rewrite E2).
  assert (A8 : openContexts s2 = openContexts s1)
    by (unfold openContexts; now rewrite C).
  repeat split; auto; apply X; simpl; auto.
Qed.

Lemma connect_resume_granted_react s :
  react (connect_resume Granted s) = react s.
Proof.
  unfold connect_resume.
  destruct (pendingConnects (browser s)) as [|c rest]; [reflexivity|].
  destruct s as [r m a p se b l]. reflexivity.
Qed.

(** X11. In a state reached without a [connect] made while another still
    waited for the microphone, and with none waiting now: a teardown does
    not call off a [connect] that still waits for the microphone.  When
    the permission comes the call acquires the stream and opens its
    session all the same, while the connection state still says
    disconnected; that session is the one retained, and the one open once
    the session promises have fulfilled. *)
Theorem disconnect_keeps_pending_connect key i blocked s :
  reachable s ->
  has_key key = true ->
  pendingConnects (browser s) = [] ->
  let s1 := disconnect (connect key i blocked s) in
  let s2 := connect_resume Granted s1 in
  pendingConnects (browser s1) = pendingConnects (browser (connect key i blocked s))
  /\ connectionState (react s2) = Disconnected
  /\ liveStreams (browser s2) = [fresh (browser s1)]
  /\ retainedSessions s2 = [S (fresh (browser s1))]
  /\ openSessions (settle s2) = [S (fresh (browser s1))]
  /\ streamRef (audio s2) = Some (fresh (browser s1))
  /\ sessionPromiseRef (session s2) = Some (S (fresh (browser s1))).
Proof.
  intros R K P s1 s2.
  pose proof (reachable_single_session s R) as W.
  assert (W1 : single_session (connect key i blocked s))
    by (apply (single_session_run (Connect key i blocked) s W P)).
  destruct (connect_idle key i blocked s K W P) as (_ & _ & _ & _ & Q & _).
  destruct (single_session_torn_down _ W1) as (L & O & _ & _ & E).
  fold (disconnect (connect key i blocked s)) in L, O, E. fold s1 in L, O, E.
  rewrite Q in E.
  destruct (connect_resume_granted _ _ s1 E)
    as (RL & RS & _ & _ & RT & RK & _).
  fold s2 in RL, RS, RT, RK.
  assert (C : connectionState (react s2) = Disconnected).
  { unfold s2. rewrite connect_resume_granted_react.
    unfold s1, disconnect. apply cleanup_spec. }
  assert (A3 : liveStreams (browser s2) = [fresh (browser s1)])
    by (now rewrite RL, L).
  assert (A4 : retainedSessions s2 = [S (fresh (browser s1))]).
  { unfold retainedSessions in *. now rewrite RS, retained_ids_app, O. }
  assert (A4' : openSessions (settle s2) = [S (fresh (browser s1))])
    by (now rewrite (proj2 (settle_spec s2))).
  repeat split; auto. now rewrite E, Q.
Qed.

(** ** The mute flag *)

Lemma toggleMute_cleanup s : cleanup (toggleMute s) = toggleMute (cleanup s).
Proof.
  destruct s as [[cs e mu v] ? [ic oc ? ? sp st so] ? [k ? ?] ? ?].
  destruct st, so, sp, ic, oc, k; lazy; reflexivity.
Qed.

Lemma toggleMute_handle_transcriptions m s :
  handle_transcriptions m (toggleMute s) = toggleMute (handle_transcriptions m s).
Proof.
  destruct s as [[cs e mu v] am a p se b l]. unfold handle_transcriptions.
  destruct (outputTranscription m), (inputTranscription m); reflexivity.
Qed.

Lemma toggleMute_handle_turnComplete env m s :
  handle_turnComplete env m (toggleMute s)
  = toggleMute (handle_turnComplete env m s).
Proof.
  destruct s as [[cs e mu v] am a p [k ci co] b l]. unfold handle_turnComplete.
  destruct (turnComplete m); [|reflexivity]. cbn -[Js.trim].
  destruct (Js.truthy (Js.trim ci)), (Js.truthy (Js.trim co)); reflexivity.
Qed.

Lemma toggleMute_handle_audio env m s :
  handle_audio env m (toggleMute s) = toggleMute (handle_audio env m s).
Proof.
  destruct s as [[cs e mu v] am [ic oc ig og sp st so] p se b l].
  unfold handle_audio. destruct (inlineData m) as [d|]; [|reflexivity]. simpl.
  destruct (Js.truthy d), oc, og; simpl; try reflexivity.
  destruct (decodeAudioData env d); reflexivity.
Qed.

Lemma toggleMute_handle_interruption m s :
  handle_interruption m (toggleMute s) = toggleMute (handle_interruption m s).
Proof.
  destruct s as [[cs e mu v] am a p se b l]. unfold handle_interruption.
  destruct (interrupted m); reflexivity.
Qed.

Lemma toggleMute_onmessage env m s :
  onmessage env m (toggleMute s) = toggleMute (onmessage env m s).
Proof.
  unfold onmessage.
  rewrite toggleMute_handle_transcriptions, toggleMute_handle_turnComplete.
  change (appModeRef (toggleMute ?x)) with (appModeRef x).
  destruct (AppMode_eqb _ _); [reflexivity|].
  now rewrite toggleMute_handle_audio, toggleMute_handle_interruption.
Qed.

Lemma toggleMute_onopen k s : onopen k (toggleMute s) = toggleMute (onopen k s).
Proof.
  destruct s as [[cs e mu v] am [ic oc ig og sp st so] p se b l].
  unfold onopen. simpl.
  destruct (find _ (sessions b)) as [sess|]; [|reflexivity]. simpl.
  destruct oc as [c|]; simpl.
  - unfold context_state. simpl.
    destruct (option_map snd (find _ (contexts b))) as [[| |]|];
      destruct ic, st; reflexivity.
  - destruct ic, st; reflexivity.
Qed.

(** X12. The mute flag is read by [connect] alone.  Every other operation
    of the hook does the same with the flag set as with the flag
    cleared: it commutes with [toggleMute]. *)
Theorem mute_flag_read_by_connect_only o s :
  (forall key i blocked, o <> Connect key i blocked) ->
  run o (toggleMute s) = toggleMute (run o s).
Proof.
  intros H. destruct o; simpl.
  - now elim (H API_KEY systemInstructionOverride autoplayBlocked).
  - destruct s as [[cs e mu v] am a pb se b l]. unfold connect_resume. simpl.
    destruct (pendingConnects b); [reflexivity|]. destruct r; reflexivity.
  - rewrite !session_fulfils_eq.
    destruct s as [[cs e mu v] am a pb se b l]. reflexivity.
  - apply toggleMute_onopen.
  - apply toggleMute_onmessage.
  - destruct s as [[cs e mu v] am a pb se b l]. reflexivity.
  - destruct s as [[cs e mu v] am a pb se b l]. reflexivity.
  - destruct s as [[cs e mu v] am a pb se b l]. unfold onaudioprocess. simpl.
    destruct (find _ (processors b)) as [pr|]; [|reflexivity].
    destruct (p_isMuted pr); [reflexivity|].
    unfold promise_then, promise_fulfilled. simpl.
    destruct (existsb _ (sessions b)); reflexivity.
  - destruct s as [[cs e mu v] am a pb se b l]. reflexivity.
  - apply toggleMute_cleanup.
  - reflexivity.
  - destruct s as [[cs e mu v] am a pb se b l]. reflexivity.
Qed.

(** ** The session opens *)

Lemma find_marked c st l :
  option_map snd (find (fun e => Nat.eqb (fst e) c) (mark_context c st l))
  = option_map (fun _ => st) (find (fun e => Nat.eqb (fst e) c) l).
Proof.
  unfold mark_context. induction l as [|[x y] l IH]; simpl; [reflexivity|].
  destruct (Nat.eqb x c) eqn:E; simpl.
  - now rewrite Nat.eqb_refl.
  - now rewrite E.
Qed.

(** X13. When its session opens while the input context and the media
    stream are in place, the hook reports connected, wires one new capture
    processor to that session with the [isMuted] the session's [connect]
    was called with, and leaves the output context running if the browser
    had suspended it. *)
Theorem onopen_starts_capture k sess ic st s :
  find (fun e => Nat.eqb (sid e) k) (sessions (browser s)) = Some sess ->
  inputAudioContextRef (audio s) = Some ic ->
  streamRef (audio s) = Some st ->
  let s' := onopen k s in
  connectionState (react s') = Connected
  /\ sourceRef (audio s') = Some (fresh (browser s))
  /\ scriptProcessorRef (audio s') = Some (S (fresh (browser s)))
  /\ processors (browser s')
     = (processors (browser s)
          ++ [{| pid := S (fresh (browser s)); p_session := k;
                 p_isMuted := s_isMuted sess; p_connected := true |}])%list
  /\ (forall c, outputAudioContextRef (audio s) = Some c ->
                context_state c s' <> Some Suspended).
Proof.
  intros F I T. cbv zeta. unfold onopen. rewrite F.
  destruct s as [[cs e mu v] am [i o ig og sp t so] p se b l].
  simpl in I, T. subst i t. simpl.
  destruct o as [c|]; simpl.
  - unfold context_state. simpl.
    destruct (option_map snd (find (fun e0 => Nat.eqb (fst e0) c) (contexts b)))
      as [[| |]|] eqn:E; simpl;
      (do 4 (split; [reflexivity|]));
      intros c' H; injection H as <-;
      rewrite ?find_marked, ?E; try discriminate.
    destruct (find _ (contexts b)); simpl; discriminate.
  - do 4 (split; [reflexivity|]). discriminate.
Qed.

(** X14. An open signal that arrives after a teardown starts no capture: no
    processor is created or wired and the audio refs stay empty. *)
Theorem onopen_after_cleanup k s :
  let s' := onopen k (cleanup s) in
  processors (browser s') = processors (browser (cleanup s))
  /\ fresh (browser s') = fresh (browser s)
  /\ audio s' = audio (cleanup s)
  /\ scriptProcessorRef (audio s') = None
  /\ streamRef (audio s') = None.
Proof.
  cbv zeta.
  destruct (cleanup_released s) as (_ & T & _ & P & I & O & _).
  destruct (cleanup_spec s) as (_ & _ & _ & F & _).
  revert T P I O F. generalize (cleanup s) as t. intros t T P I O F.
  unfold onopen. destruct (find _ (sessions (browser t))); [|now rewrite F, P, T].
  destruct t as [[cs e mu v] am [i o ig og sp st so] p se b l].
  simpl in *. subst. simpl. auto.
Qed.

(** ** The countdown *)

Lemma existsb_eqb_In id l : existsb (Nat.eqb id) l = true <-> In id l.
Proof.
  rewrite existsb_exists. split.
  - intros (x & Hx & E). apply Nat.eqb_eq in E. now subst.
  - intros H. exists id. split; [exact H | apply Nat.eqb_refl].
Qed.

Lemma existsb_eqb_deleted id l : existsb (Nat.eqb id) (Set_delete id l) = false.
Proof.
  destruct (existsb (Nat.eqb id) (Set_delete id l)) eqn:E; [|reflexivity].
  apply existsb_eqb_In, Set_delete_In in E. now destruct E.
Qed.

Lemma counting_step d id done n c :
  (1 <= d)%Z -> counting d id done n c ->
  counting d id done (S n) (interval_fires id c).
Proof.
  intros D (T & R & F). unfold counting, interval_fires.
  destruct (Z_lt_le_dec (Z.of_nat n) d) as [L|L].
  - destruct (R L) as (TL & C & I).
    rewrite (proj2 (existsb_eqb_In id (intervals c)) I), TL.
    destruct (Z.leb_spec (d - Z.of_nat n) 1) as [E|E]; rewrite T; simpl.
    + split; [exact T|]. split; intros H; [lia|].
      repeat split; [now rewrite C|].
      intros X. apply Set_delete_In in X. now destruct X.
    + split; [reflexivity|]. split; intros H; [|lia].
      repeat split; auto. lia.
  - destruct (F L) as (TL & C & I).
    destruct (existsb (Nat.eqb id) (intervals c)) eqn:E.
    + apply existsb_eqb_In in E. contradiction.
    + split; [exact T|]. split; intros H; [lia | auto].
Qed.

Lemma counting_from_start d c :
  (1 <= d)%Z ->
  counting d (nextInterval c) (completions c) 0
    (timer_effect TEST_ACTIVE d (timer_cleanup c)).
Proof.
  intros D. unfold counting, timer_effect, timer_cleanup, clearInterval. simpl.
  destruct (timerRef c); simpl; (split; [reflexivity|]);
    (split; intros H; [|lia]); repeat split; try lia;
    apply in_or_app; right; now left.
Qed.

Lemma counting_after d c n :
  (1 <= d)%Z ->
  counting d (nextInterval c) (completions c) n
    (seconds_pass n (nextInterval c) (timer_effect TEST_ACTIVE d (timer_cleanup c))).
Proof.
  intros D. induction n as [|n IH]; simpl.
  - now apply counting_from_start.
  - now apply counting_step.
Qed.

(** X15. Once a test goes active the display counts down by one each second
    from the duration of the test (15 for the semantic test, 60
    otherwise), never below zero; at the tick that would leave zero the
    interval is cleared and onTestComplete is called, once and never
    again. *)
Theorem countdown_completes_once testType c n :
  let d := test_duration testType in
  let id := nextInterval c in
  let c' := seconds_pass n id (test_starts testType c) in
  ((Z.of_nat n < d)%Z ->
   timeLeft c' = (d - Z.of_nat n)%Z
   /\ completions c' = completions c
   /\ In id (intervals c'))
  /\ ((d <= Z.of_nat n)%Z ->
      timeLeft c' = 0%Z
      /\ completions c' = S (completions c)
      /\ ~ In id (intervals c'))
  /\ (0 <= timeLeft c' <= d)%Z.
Proof.
  intros d id c'.
  assert (D : (1 <= d)%Z) by (unfold d; destruct testType as [[|]|]; simpl; lia).
  destruct (counting_after d c n D) as (_ & R & F).
  fold id in R, F. unfold test_starts in c'. fold d in c'. fold c' in R, F.
  split; [exact R|]. split; [exact F|].
  destruct (Z_lt_le_dec (Z.of_nat n) d) as [L|L].
  - destruct (R L) as (-> & _). lia.
  - destruct (F L) as (-> & _). lia.
Qed.

(** ** The fluency scorer's input *)

Lemma filter_drop {A} (f : A -> bool) l1 x l2 :
  f x = false -> filter f (l1 ++ x :: l2) = filter f (l1 ++ l2).
Proof. intros H. rewrite !filter_app. simpl. now rewrite H. Qed.

(** X16. What is sent to the fluency scorer are the texts of the user's
    messages of the last 90 seconds, one a line: a message of the model,
    or one that is 90 seconds old or older, changes nothing in it wherever
    it stands in the transcript; and nothing is sent without a credential
    or for an empty transcript. *)
Theorem fluency_context_window key now before m after :
  has_key key = true ->
  (before ++ after <> [])%list ->
  role m = model \/ (timestamp m <= now - 90000)%Z ->
  runFluencyAnalysis key now (before ++ m :: after)
  = runFluencyAnalysis key now (before ++ after)
  /\ runFluencyAnalysis None now (before ++ m :: after) = None
  /\ runFluencyAnalysis key now [] = None.
Proof.
  intros K N H. unfold runFluencyAnalysis. rewrite K. simpl.
  repeat split.
  assert (L1 : (List.length (before ++ m :: after) =? 0)%nat = false).
  { rewrite length_app. simpl. apply Nat.eqb_neq. lia. }
  assert (L2 : (List.length (before ++ after) =? 0)%nat = false).
  { apply Nat.eqb_neq. intros E. apply length_zero_iff_nil in E. contradiction. }
  rewrite L1, L2. f_equal. f_equal. f_equal. apply filter_drop.
  unfold is_user. destruct H as [-> | H]; [reflexivity|].
  destruct (role m); [|reflexivity]. simpl. apply Z.ltb_ge. exact H.
Qed.

(** ** Switching the persona *)

Lemma connect_appModeRef key i blocked s :
  appModeRef (connect key i blocked s) = appModeRef s.
Proof.
  unfold connect. destruct (negb (has_key key)); [reflexivity|].
  assert (E : forall t, appModeRef (connect_setup i blocked t) = appModeRef t)
    by (intros [r m a p se b l]; reflexivity).
  rewrite E. destruct (Js.present _); [|reflexivity]. apply cleanup_log.
Qed.

Lemma connect_resume_appModeRef r s :
  appModeRef (connect_resume r s) = appModeRef s.
Proof.
  unfold connect_resume.
  destruct (pendingConnects (browser s)) as [|c rest]; [reflexivity|].
  destruct s as [re m a p se b l]. destruct r; reflexivity.
Qed.

(** The session is given up and, after a while, another is opened with
    [i]. *)
Lemma reconnect_configured key i blocked h :
  reachable h ->
  has_key key = true ->
  pendingConnects (browser h) = [] ->
  let h1 := disconnect h in
  let h2 := connect_resume Granted (connect key i blocked h1) in
  liveStreams (browser h1) = []
  /\ retainedSessions h1 = []
  /\ appModeRef h2 = appModeRef h
  /\ exists earlier sess,
       sessions (browser h2) = (earlier ++ [sess])%list
       /\ retained_ids earlier = []
       /\ closed sess = false
       /\ sessionPromiseRef (session h2) = Some (sid sess)
       /\ systemInstruction sess = instruction_of i
       /\ retainedSessions h2 = [sid sess].
Proof.
  intros R K P h1 h2.
  pose proof (reachable_single_session h R) as W.
  destruct (single_session_torn_down h W) as (L & O & _ & _ & E).
  fold (disconnect h) in L, O, E. fold h1 in L, O, E. rewrite P in E.
  assert (W1 : single_session h1)
    by (apply (single_session_run Disconnect h W I)).
  destruct (connect_idle key i blocked h1 K W1 E) as (_ & O1 & _ & _ & Q & _).
  destruct (connect_resume_granted _ _ _ Q) as (_ & RS & _ & _ & _ & RK & _).
  fold h2 in RS, RK.
  split; [exact L|]. split; [exact O|]. split.
  - unfold h2. rewrite connect_resume_appModeRef, connect_appModeRef.
    unfold h1, disconnect. apply cleanup_log.
  - eexists. eexists. split; [exact RS|]. split; [exact O1|].
    split; [reflexivity|]. split; [exact RK|]. split; [reflexivity|].
    unfold retainedSessions in *. now rewrite RS, retained_ids_app, O1.
Qed.

Lemma proctorInstruction_truthy type : Js.truthy (proctorInstruction type) = true.
Proof. destruct type as [[|]|]; reflexivity. Qed.

(** X17. Take an application whose hook was reached without a [connect]
    made while another still waited for the microphone, with no [connect]
    waiting and no reconnect timeout outstanding.  Setting up a test
    switches the persona by reconnecting: the mode becomes test-setup and
    the teardown runs at once, after which no media stream is live and no
    session is retained.  The session opened when the timeout has fired
    and the microphone is granted carries the proctor instruction of the
    chosen test; it is the only session retained, and the only one open
    once the session promises have fulfilled. *)
Theorem setup_test_switches_persona key blocked type a :
  reachable (hook a) ->
  has_key key = true ->
  pendingConnects (browser (hook a)) = [] ->
  timeouts a = [] ->
  let a1 := handleSetupTest type a in
  let a2 := hook_runs (UserMedia Granted) (timeout_fires key blocked a1) in
  (appMode a1 = TEST_SETUP /\ testType a1 = type
   /\ liveStreams (browser (hook a1)) = [] /\ retainedSessions (hook a1) = []
   /\ openSessions (settle (hook a1)) = [])
  /\ (appMode a2 = TEST_SETUP /\ appModeRef (hook a2) = TEST_SETUP
      /\ timeouts a2 = []
      /\ exists earlier sess,
           sessions (browser (hook a2)) = (earlier ++ [sess])%list
           /\ retained_ids earlier = []
           /\ closed sess = false
           /\ sessionPromiseRef (session (hook a2)) = Some (sid sess)
           /\ systemInstruction sess = proctorInstruction type
           /\ retainedSessions (hook a2) = [sid sess]
           /\ openSessions (settle (hook a2)) = [sid sess]).
Proof.
  intros R K P T a1 a2.
  set (h := sync_appMode TEST_SETUP (hook a)).
  assert (Rh : reachable h) by (apply (reachable_run (AppModeChange TEST_SETUP) _ R I)).
  assert (Ph : pendingConnects (browser h) = []) by exact P.
  destruct (reconnect_configured key (Some (proctorInstruction type)) blocked h
              Rh K Ph) as (L & O & M & earlier & sess & S1 & S2 & S3 & S4 & S5 & S6).
  assert (E1 : hook a1 = disconnect h) by reflexivity.
  assert (E2 : hook a2
               = connect_resume Granted
                   (connect key (Some (proctorInstruction type)) blocked
                      (disconnect h))).
  { unfold a2, a1, timeout_fires, handleSetupTest, reconnect_later. simpl.
    rewrite T. reflexivity. }
  assert (T2 : timeouts a2 = []).
  { unfold a2, a1, timeout_fires, handleSetupTest, reconnect_later. simpl.
    rewrite T. reflexivity. }
  assert (A2 : appMode a2 = TEST_SETUP).
  { unfold a2, a1, timeout_fires, handleSetupTest, reconnect_later. simpl.
    rewrite T. reflexivity. }
  split.
  - split; [reflexivity|]. split; [reflexivity|]. rewrite E1.
    split; [exact L|]. split; [exact O|].
    now rewrite (proj2 (settle_spec _)).
  - rewrite E2. split; [exact A2|]. split; [exact M|]. split; [exact T2|].
    exists earlier, sess. rewrite S5. unfold instruction_of.
    rewrite proctorInstruction_truthy.
    do 5 (split; [auto|]). split; [exact S6|].
    now rewrite (proj2 (settle_spec _)).
Qed.

(** X18. Take an application whose hook was reached without a [connect]
    made while another still waited for the microphone, with no [connect]
    waiting and no reconnect timeout outstanding.  Ending a test, by its
    completion or by the clinician's cancel, goes back to conversation
    mode and to the companion: both handlers do the same, the teardown
    runs at once, after which no media stream is live and no session is
    retained, and the session opened when the timeout has fired and
    the microphone is granted carries the default instruction; it is the
    only session retained, and the only one open once the session
    promises have fulfilled. *)
Theorem test_end_restores_companion key blocked a :
  reachable (hook a) ->
  has_key key = true ->
  pendingConnects (browser (hook a)) = [] ->
  timeouts a = [] ->
  let a1 := handleTestComplete a in
  let a2 := hook_runs (UserMedia Granted) (timeout_fires key blocked a1) in
  handleCancelTest a = a1
  /\ (appMode a1 = CONVERSATION /\ testType a1 = None
      /\ liveStreams (browser (hook a1)) = [] /\ retainedSessions (hook a1) = []
      /\ openSessions (settle (hook a1)) = [])
  /\ (appMode a2 = CONVERSATION /\ appModeRef (hook a2) = CONVERSATION
      /\ timeouts a2 = []
      /\ exists earlier sess,
           sessions (browser (hook a2)) = (earlier ++ [sess])%list
           /\ retained_ids earlier = []
           /\ closed sess = false
           /\ sessionPromiseRef (session (hook a2)) = Some (sid sess)
           /\ systemInstruction sess = DEFAULT_SYSTEM_INSTRUCTION
           /\ retainedSessions (hook a2) = [sid sess]
           /\ openSessions (settle (hook a2)) = [sid sess]).
Proof.
  intros R K P T a1 a2.
  set (h := sync_appMode CONVERSATION (hook a)).
  assert (Rh : reachable h) by (apply (reachable_run (AppModeChange CONVERSATION) _ R I)).
  assert (Ph : pendingConnects (browser h) = []) by exact P.
  destruct (reconnect_configured key None blocked h Rh K Ph)
    as (L & O & M & earlier & sess & S1 & S2 & S3 & S4 & S5 & S6).
  assert (E1 : hook a1 = disconnect h) by reflexivity.
  assert (E2 : hook a2
               = connect_resume Granted (connect key None blocked (disconnect h))).
  { unfold a2, a1, timeout_fires, handleTestComplete, reconnect_later. simpl.
    rewrite T. reflexivity. }
  assert (T2 : timeouts a2 = []).
  { unfold a2, a1, timeout_fires, handleTestComplete, reconnect_later. simpl.
    rewrite T. reflexivity. }
  assert (A2 : appMode a2 = CONVERSATION).
  { unfold a2, a1, timeout_fires, handleTestComplete, reconnect_later. simpl.
    rewrite T. reflexivity. }
  split; [reflexivity|]. split.
  - split; [reflexivity|]. split; [reflexivity|]. rewrite E1.
    split; [exact L|]. split; [exact O|].
    now rewrite (proj2 (settle_spec _)).
  - rewrite E2. split; [exact A2|]. split; [exact M|]. split; [exact T2|].
    exists earlier, sess.
    do 5 (split; [auto|]). split; [exact S6|].
    now rewrite (proj2 (settle_spec _)).
Qed.

(** ** Teardown twice *)

Lemma cleanup_of_released s :
  released s ->
  cleanup s = setVolumeLevel (num 0) (setConnectionState Disconnected s).
Proof.
  destruct s as [r m [ic oc ig og sp st so] [c act] [k ci co] b [t d sa sp' sn cn]].
  unfold released, activeSet. simpl.
  intros (-> & -> & -> & -> & -> & -> & ->).
  cbv -[app]. rewrite app_nil_r. reflexivity.
Qed.

Lemma cleanup_settled s :
  setVolumeLevel (num 0) (setConnectionState Disconnected (cleanup s)) = cleanup s.
Proof. cleanup_cases s; lazy; reflexivity. Qed.

(** X19. Teardown is idempotent: a second [cleanup] (a [disconnect] after a
    [disconnect], or the unmount after it) changes nothing. *)
Theorem cleanup_idempotent s : cleanup (cleanup s) = cleanup s.
Proof.
  rewrite (cleanup_of_released _ (cleanup_released s)). apply cleanup_settled.
Qed.

(** ** The transcript *)

Lemma onmessage_transcript env m s :
  transcript (log (onmessage env m s))
  = (transcript (log s)
       ++ if turnComplete m
          then emitted env (userBuffer s ++ fragment (inputTranscription m))
                 (modelBuffer s ++ fragment (outputTranscription m))
          else [])%list.
Proof.
  destruct (turnComplete m) eqn:T; [now apply onmessage_turnComplete|].
  rewrite app_nil_r, onmessage_unfold. unfold transcribe.
  rewrite (handle_turnComplete_skip _ _ _ T).
  set (t := handle_transcriptions m s).
  assert (L : transcript (log t) = transcript (log s)).
  { destruct (handle_transcriptions_frame m s) as (_ & _ & _ & _ & _ & L).
    fold t in L. now rewrite L. }
  destruct (AppMode_eqb (appModeRef s) TEST_ACTIVE); [exact L|].
  destruct (handle_audio_frame env m t) as (_ & _ & _ & _ & La & _).
  destruct (handle_interruption_frame m (handle_audio env m t))
    as (_ & _ & _ & _ & _ & _ & _ & Li & _).
  now rewrite Li, La.
Qed.

Lemma onopen_transcript k s :
  transcript (log (onopen k s)) = transcript (log s).
Proof.
  unfold onopen.
  destruct (find _ (sessions (browser s))); [|reflexivity].
  repeat match goal with
         | |- context [match ?x with _ => _ end] => destruct x; simpl
         end; reflexivity.
Qed.

Lemma run_transcript o s :
  exists added,
    transcript (log (run o s)) = (transcript (log s) ++ added)%list
    /\ (completes_turn o = false -> added = []).
Proof.
  assert (Same : transcript (log (run o s)) = transcript (log s) ->
                 exists added,
                   transcript (log (run o s)) = (transcript (log s) ++ added)%list
                   /\ (completes_turn o = false -> added = [])).
  { intros E. exists []. rewrite app_nil_r. auto. }
  destruct o; simpl in *; try (apply Same; reflexivity).
  - apply Same. unfold connect.
    destruct (negb (has_key API_KEY)); [reflexivity|].
    assert (E : forall t, transcript (log (connect_setup systemInstructionOverride
                                             autoplayBlocked t))
                          = transcript (log t))
      by (intros t; destruct (connect_setup_spec systemInstructionOverride
                                autoplayBlocked t)
            as (_ & _ & _ & _ & _ & _ & _ & _ & _ & _ & ->); reflexivity).
    rewrite E. destruct (Js.present _); [|reflexivity]. apply cleanup_log.
  - apply Same. unfold connect_resume.
    destruct (pendingConnects (browser s)) as [|c rest]; [reflexivity|].
    destruct r; reflexivity.
  - apply Same. apply session_fulfils_frame.
  - apply Same. apply onopen_transcript.
  - rewrite onmessage_transcript. eexists. split; [reflexivity|].
    intros ->. reflexivity.
  - apply Same. unfold onaudioprocess.
    destruct (find _ (processors (browser s))) as [pr|]; [|reflexivity].
    destruct (p_isMuted pr); [reflexivity|].
    unfold promise_then. destruct (promise_fulfilled _ _); reflexivity.
  - apply Same. unfold disconnect. apply cleanup_log.
Qed.

(** X20. The transcript handed to the application only grows: no operation
    of the hook takes back or alters a ChatMessage it has emitted, and
    only a message with the turn-complete signal adds any. *)
Theorem transcript_append_only ops s :
  exists added,
    transcript (log (run_all ops s)) = (transcript (log s) ++ added)%list
    /\ (forallb (fun o => negb (completes_turn o)) ops = true -> added = []).
Proof.
  revert s. unfold run_all. induction ops as [|o ops IH]; intros s; simpl.
  - exists []. rewrite app_nil_r. auto.
  - destruct (IH (run o s)) as (a2 & E2 & N2).
    destruct (run_transcript o s) as (a1 & E1 & N1).
    exists (a1 ++ a2)%list. rewrite E2, E1, app_assoc. split; [reflexivity|].
    intros H. apply andb_prop in H. destruct H as [H1 H2].
    apply negb_true_iff in H1. now rewrite (N1 H1), (N2 H2).
Qed.

(** ** The further statements at work on the example session *)

Lemma granted_session_reachable : reachable granted_session.
Proof.
  assert (E : granted_session
              = run (UserMedia Granted)
                  (run (Connect (Some "key") None false) (initial CONVERSATION)))
    by (vm_compute; reflexivity).
  rewrite E. apply reachable_run; [|exact I].
  apply reachable_run; [apply reachable_initial | reflexivity].
Qed.

Lemma live_session_reachable : reachable live_session.
Proof.
  assert (E : live_session = run (Fulfil 5) (run (Open 5) granted_session))
    by (vm_compute; reflexivity).
  rewrite E. apply reachable_run; [|exact I].
  apply reachable_run; [exact granted_session_reachable | exact I].
Qed.



Lemma capture_handler_outlives_cleanup_witness :
  let pr := {| pid := 7; p_session := 5; p_isMuted := false; p_connected := true |} in
  let s' := onaudioprocess 7 [1 # 2] (cleanup live_session) in
  find (fun e => Nat.eqb (pid e) 7) (processors (browser live_session)) = Some pr
  /\ p_isMuted pr = false
  /\ promise_fulfilled 5 live_session = true
  /\ volumeLevel (react s') <> num 0
  /\ sent (log s') = [(5%nat, createBlob [1 # 2])].
Proof.
  intros pr s'.
  assert (F : find (fun e => Nat.eqb (pid e) 7) (processors (browser live_session))
              = Some pr) by (vm_compute; reflexivity).
  assert (Q : promise_fulfilled 5 live_session = true) by (vm_compute; reflexivity).
  split; [exact F|]. split; [reflexivity|]. split; [exact Q|].
  destruct (capture_handler_outlives_cleanup 7 pr [1 # 2] live_session F eq_refl)
    as (_ & V & S).
  fold s' in V, S. split.
  - rewrite V. discriminate.
  - rewrite (S Q). vm_compute. reflexivity.
Defined.

Lemma decode_failure_drops_chunk_witness :
  let s' := onmessage (failing_env 1) (audioChunk "????") live_session in
  appModeRef live_session <> TEST_ACTIVE
  /\ output_ready live_session
  /\ decodeAudioData (failing_env 1) "????" = None
  /\ schedulable (example_env 2) (audioChunk "AAAA") {| frames := 24000 |}
  /\ started (log s') = started (log live_session)
  /\ activeSet s' = activeSet live_session.
Proof.
  intros s'.
  assert (H : appModeRef live_session <> TEST_ACTIVE) by discriminate.
  assert (R : output_ready live_session) by (split; discriminate).
  assert (B : schedulable (example_env 2) (audioChunk "AAAA") {| frames := 24000 |})
    by (exists "AAAA"; repeat split).
  split; [exact H|]. split; [exact R|]. split; [reflexivity|]. split; [exact B|].
  destruct (decode_failure_drops_chunk (failing_env 1) (audioChunk "????") "????"
              (example_env 2) (audioChunk "AAAA") {| frames := 24000 |}
              live_session H R eq_refl eq_refl eq_refl eq_refl B)
    as (S & A & _).
  split; [exact S | exact A].
Defined.

Lemma natural_completion_witness :
  let ops := [Connect (Some "key") None false; UserMedia Granted; Open 5] in
  let s := run_all ops (initial CONVERSATION) in
  let s' := onmessage (example_env 1) (audioChunk "AAAA") s in
  appModeRef s <> TEST_ACTIVE
  /\ output_ready s
  /\ schedulable (example_env 1) (audioChunk "AAAA") {| frames := 24000 |}
  /\ activeSet (onended (fresh (browser s)) s') = activeSet s.
Proof.
  intros ops s s'.
  assert (H : appModeRef s <> TEST_ACTIVE) by discriminate.
  assert (R : output_ready s) by (split; discriminate).
  assert (B : schedulable (example_env 1) (audioChunk "AAAA") {| frames := 24000 |})
    by (exists "AAAA"; repeat split).
  split; [exact H|]. split; [exact R|]. split; [exact B|].
  exact (proj1 (proj2 (natural_completion ops CONVERSATION (example_env 1)
                         (audioChunk "AAAA") {| frames := 24000 |} H R B))).
Defined.

Lemma one_session_at_a_time_witness :
  let s := disconnect granted_session in
  reachable s
  /\ openSessions s = [5]%nat
  /\ retainedSessions s = []
  /\ openSessions (settle s) = opt_list (sessionPromiseRef (session s)).
Proof.
  intros s.
  assert (R : reachable s).
  { apply (reachable_run Disconnect); [exact granted_session_reachable | exact I]. }
  split; [exact R|]. split; [vm_compute; reflexivity|].
  destruct (one_session_at_a_time s R) as (_ & _ & _ & B & _ & C).
  split; [rewrite B; vm_compute; reflexivity | exact C].
Defined.

Lemma blank_turn_emits_nothing_witness :
  let m := {| outputTranscription := None;
              inputTranscription := Some {| transcription_text := Some "  " |};
              turnComplete := true; inlineData := None; interrupted := false |} in
  turnComplete m = true
  /\ blank (userBuffer live_session ++ "  ") = true
  /\ transcript (log (onmessage (example_env 1) m live_session))
     = transcript (log live_session).
Proof.
  intros m. split; [reflexivity|]. split; [vm_compute; reflexivity|].
  apply (blank_turn_emits_nothing (example_env 1) m live_session eq_refl).
  split; vm_compute; reflexivity.
Defined.

Lemma capture_sends_and_meters_witness :
  let pr := {| pid := 7; p_session := 5; p_isMuted := false; p_connected := true |} in
  let block := [1 # 2; -1 # 4] in
  find (fun e => Nat.eqb (pid e) 7) (processors (browser live_session)) = Some pr
  /\ p_isMuted pr = false
  /\ block <> []
  /\ Forall (fun x => -1 <= x /\ x <= 1) block
  /\ promise_fulfilled 5 live_session = true
  /\ mean_square block == 5 # 32
  /\ sent (log (onaudioprocess 7 block live_session))
     = (sent (log live_session) ++ [(5%nat, createBlob block)])%list.
Proof.
  intros pr block.
  assert (F : find (fun e => Nat.eqb (pid e) 7) (processors (browser live_session))
              = Some pr) by (vm_compute; reflexivity).
  assert (N : block <> []) by discriminate.
  assert (B : Forall (fun x => -1 <= x /\ x <= 1) block).
  { repeat constructor; vm_compute; discriminate. }
  assert (Q : promise_fulfilled 5 live_session = true) by (vm_compute; reflexivity).
  split; [exact F|]. split; [reflexivity|]. split; [exact N|]. split; [exact B|].
  split; [exact Q|]. split; [vm_compute; reflexivity|].
  destruct (capture_sends_and_meters 7 pr block live_session F eq_refl N B)
    as (_ & _ & _ & S & _).
  exact (S Q).
Defined.

Lemma connect_opens_configured_session_witness :
  reachable live_session
  /\ has_key (Some "key") = true
  /\ pendingConnects (browser live_session) = []
  /\ exists earlier sess,
       sessions (browser (connect_resume Granted
                            (connect (Some "key") (Some "proctor") false
                               live_session)))
       = (earlier ++ [sess])%list
       /\ systemInstruction sess = "proctor".
Proof.
  assert (P : pendingConnects (browser live_session) = [])
    by (vm_compute; reflexivity).
  split; [exact live_session_reachable|]. split; [reflexivity|]. split; [exact P|].
  destruct (connect_opens_configured_session (Some "key") (Some "proctor") false
              live_session live_session_reachable eq_refl P)
    as (earlier & sess & S & _ & _ & _ & _ & _ & _ & _ & I).
  exists earlier, sess. split; [exact S | exact I].
Defined.

Lemma microphone_refused_witness :
  let s2 := connect_resume (Rejected (Some "Permission denied"))
              (connect (Some "key") None false live_session) in
  reachable live_session
  /\ has_key (Some "key") = true
  /\ pendingConnects (browser live_session) = []
  /\ connectionState (react s2) = Error
  /\ error (react s2) = Some "Permission denied"
  /\ liveStreams (browser s2) = [].
Proof.
  intros s2.
  assert (P : pendingConnects (browser live_session) = [])
    by (vm_compute; reflexivity).
  split; [exact live_session_reachable|]. split; [reflexivity|]. split; [exact P|].
  destruct (microphone_refused (Some "key") None false (Some "Permission denied")
              live_session live_session_reachable eq_refl P)
    as (A & B & C & _).
  split; [exact A|]. split; [exact B | exact C].
Defined.

Lemma disconnect_keeps_pending_connect_witness :
  let s1 := disconnect (connect (Some "key") None false live_session) in
  let s2 := connect_resume Granted s1 in
  reachable live_session
  /\ has_key (Some "key") = true
  /\ pendingConnects (browser live_session) = []
  /\ connectionState (react s2) = Disconnected
  /\ liveStreams (browser s2) = [fresh (browser s1)].
Proof.
  intros s1 s2.
  assert (P : pendingConnects (browser live_session) = [])
    by (vm_compute; reflexivity).
  split; [exact live_session_reachable|]. split; [reflexivity|]. split; [exact P|].
  destruct (disconnect_keeps_pending_connect (Some "key") None false
              live_session live_session_reachable eq_refl P)
    as (_ & A & B & _).
  split; [exact A | exact B].
Defined.

Lemma mute_flag_read_by_connect_only_witness :
  (forall key i blocked, AudioProcess 7 [1 # 2] <> Connect key i blocked)
  /\ run (AudioProcess 7 [1 # 2]) (toggleMute live_session)
     = toggleMute (run (AudioProcess 7 [1 # 2]) live_session).
Proof.
  assert (H : forall key i blocked, AudioProcess 7 [1 # 2] <> Connect key i blocked)
    by discriminate.
  split; [exact H|].
  exact (mute_flag_read_by_connect_only (AudioProcess 7 [1 # 2]) live_session H).
Defined.

Lemma onopen_starts_capture_witness :
  let sess := {| sid := 5; fulfilled := false; reactions := [];
                 closed := false; s_isMuted := false;
                 systemInstruction := DEFAULT_SYSTEM_INSTRUCTION |} in
  find (fun e => Nat.eqb (sid e) 5) (sessions (browser granted_session)) = Some sess
  /\ inputAudioContextRef (audio granted_session) = Some 0%nat
  /\ streamRef (audio granted_session) = Some 4%nat
  /\ connectionState (react (onopen 5 granted_session)) = Connected
  /\ scriptProcessorRef (audio (onopen 5 granted_session))
     = Some (S (fresh (browser granted_session))).
Proof.
  intros sess.
  assert (F : find (fun e => Nat.eqb (sid e) 5) (sessions (browser granted_session))
              = Some sess) by (vm_compute; reflexivity).
  assert (A : inputAudioContextRef (audio granted_session) = Some 0%nat)
    by (vm_compute; reflexivity).
  assert (B : streamRef (audio granted_session) = Some 4%nat)
    by (vm_compute; reflexivity).
  split; [exact F|]. split; [exact A|]. split; [exact B|].
  destruct (onopen_starts_capture 5 sess 0 4 granted_session F A B)
    as (C & _ & P & _).
  split; [exact C | exact P].
Defined.

Lemma fluency_context_window_witness :
  let said := {| role := user; text := "cat dog"; timestamp := 95000 |} in
  let reply := {| role := model; text := "Go on"; timestamp := 96000 |} in
  has_key (Some "key") = true
  /\ ([said] ++ [] <> [])%list
  /\ (role reply = model \/ (timestamp reply <= 100000 - 90000)%Z)
  /\ runFluencyAnalysis (Some "key") 100000 ([said] ++ reply :: [])
     = runFluencyAnalysis (Some "key") 100000 ([said] ++ []).
Proof.
  intros said reply.
  assert (N : ([said] ++ [] <> [])%list) by discriminate.
  assert (H : role reply = model \/ (timestamp reply <= 100000 - 90000)%Z)
    by (left; reflexivity).
  split; [reflexivity|]. split; [exact N|]. split; [exact H|].
  exact (proj1 (fluency_context_window (Some "key") 100000 [said] reply []
                  eq_refl N H)).
Defined.

Lemma setup_test_switches_persona_witness :
  let a1 := handleSetupTest (Some SEMANTIC) example_app in
  reachable (hook example_app)
  /\ has_key (Some "key") = true
  /\ pendingConnects (browser (hook example_app)) = []
  /\ timeouts example_app = []
  /\ appMode a1 = TEST_SETUP
  /\ liveStreams (browser (hook a1)) = [].
Proof.
  intros a1.
  assert (P : pendingConnects (browser (hook example_app)) = [])
    by (vm_compute; reflexivity).
  split; [exact live_session_reachable|]. split; [reflexivity|]. split; [exact P|].
  split; [reflexivity|].
  destruct (setup_test_switches_persona (Some "key") false (Some SEMANTIC)
              example_app live_session_reachable eq_refl P eq_refl)
    as ((A & _ & L & _) & _).
  split; [exact A | exact L].
Defined.

Lemma test_end_restores_companion_witness :
  let a1 := handleTestComplete example_app in
  reachable (hook example_app)
  /\ has_key (Some "key") = true
  /\ pendingConnects (browser (hook example_app)) = []
  /\ timeouts example_app = []
  /\ handleCancelTest example_app = a1
  /\ retainedSessions (hook a1) = [].
Proof.
  intros a1.
  assert (P : pendingConnects (browser (hook example_app)) = [])
    by (vm_compute; reflexivity).
  split; [exact live_session_reachable|]. split; [reflexivity|]. split; [exact P|].
  split; [reflexivity|].
  destruct (test_end_restores_companion (Some "key") false example_app
              live_session_reachable eq_refl P eq_refl)
    as (A & (_ & _ & _ & O & _) & _).
  split; [exact A | exact O].
Defined.

Lemma countdown_completes_once_witness :
  let c' := seconds_pass 15 0 (test_starts (Some SEMANTIC) idle_countdown) in
  (test_duration (Some SEMANTIC) <= Z.of_nat 15)%Z
  /\ timeLeft c' = 0%Z /\ completions c' = 1%nat.
Proof.
  intros c'.
  assert (H : (test_duration (Some SEMANTIC) <= Z.of_nat 15)%Z)
    by (vm_compute; discriminate).
  split; [exact H|].
  destruct (countdown_completes_once (Some SEMANTIC) idle_countdown 15)
    as (_ & F & _).
  destruct (F H) as (A & B & _). split; [exact A | exact B].
Defined.
